(** * LINE sticker editor: a shallow embedding of the raster core

    The development follows the source files of the repository:
    - [types.ts] (item, pack configuration),
    - [utils/imageUtils.ts] ([cropImageGrid], [removeBackground],
      [resizeToLineSpec]),
    - [components/StickerEditor.tsx] ([pushHistory], [handleUndo]),
    - [App.tsx] (the collection manager and [handleExport]).

    Definitions come first, theorems after them. *)

From Stdlib Require Import ZArith QArith Qround Qminmax Lqa Floats Uint63.
From Stdlib Require Import String Ascii List Lia DecimalString.
From stdpp Require Import base tactics option list relations strings.

Set Default Proof Using "Type".
Local Open Scope Z_scope.

(** ** types.ts *)

Inductive RemovalMode := white | black | none.

Inductive Status := pending | processing | done | error.

#[global] Instance RemovalMode_eq_dec : EqDecision RemovalMode.
Proof. solve_decision. Defined.

#[global] Instance Status_eq_dec : EqDecision Status.
Proof. solve_decision. Defined.

(** [ImageData]: width, height and the flat RGBA byte array
    ([Uint8ClampedArray], four entries per pixel, row after row). *)
Record ImageData := mkImageData {
  img_width : Z;
  img_height : Z;
  img_data : list Z
}.

(** A [Blob] produced by [canvas.toBlob(.., 'image/png')] is represented by
    the raster it encodes; a decoded [HTMLImageElement] is that raster. *)
Record Blob := mkBlob { blob_image : ImageData }.

Inductive File := mkFile (file_name : string).

Record Settings := mkSettings {
  mode : RemovalMode;
  threshold : Z
}.

(** [isMain?: boolean] and [isTab?: boolean] are optional fields: [None] is
    JavaScript's [undefined]. *)
Record StickerItem := mkStickerItem {
  id : string;
  originalFile : option File;
  previewUrl : string;
  processedBlob : option Blob;
  processedUrl : option string;
  status : Status;
  isMain : option bool;
  isTab : option bool;
  settings : Settings
}.

Inductive StickerSetType := standard | fullscreen.

(** [count: 8 | 16 | 24 | 32 | 40]. *)
Inductive PackCount := count8 | count16 | count24 | count32 | count40.

Definition count_value (c : PackCount) : Z :=
  match c with
  | count8 => 8 | count16 => 16 | count24 => 24 | count32 => 32 | count40 => 40
  end.

Record StickerPackConfig := mkConfig {
  count : PackCount;
  type : StickerSetType
}.

(** Truthiness of an optional boolean, as used by [stickers.find(s => s.isMain)]. *)
Definition truthy (o : option bool) : bool :=
  match o with Some true => true | _ => false end.

(** ** JavaScript numbers

    The geometric code divides, so its values are not integers.  The
    operations it uses are collected in a class with two instances:
    IEEE-754 binary64 ([float], what the program computes with) and exact
    rationals ([Q], the same formulas without rounding). *)

Class Number (N : Type) := {
  num_of_Z : Z -> N;
  num_add : N -> N -> N;
  num_sub : N -> N -> N;
  num_mul : N -> N -> N;
  num_div : N -> N -> N;
  num_min : N -> N -> N;      (* Math.min *)
  num_round : N -> N;         (* Math.round *)
  num_ltb : N -> N -> bool    (* < *)
}.

Declare Scope num_scope.
Delimit Scope num_scope with num.
Infix "+" := num_add : num_scope.
Infix "-" := num_sub : num_scope.
Infix "*" := num_mul : num_scope.
Infix "/" := num_div : num_scope.

(** *** Exact rationals *)

(** [Math.round]: nearest integer, ties towards plus infinity. *)
Definition Q_round (q : Q) : Q := inject_Z (Qfloor (q + (1 # 2))%Q).

Definition Q_ltb (a b : Q) : bool :=
  match (a ?= b)%Q with Lt => true | _ => false end.

#[global] Instance Q_Number : Number Q := {
  num_of_Z := inject_Z;
  num_add := Qplus;
  num_sub := Qminus;
  num_mul := Qmult;
  num_div := Qdiv;
  num_min := Qmin;
  num_round := Q_round;
  num_ltb := Q_ltb
}.

(** *** IEEE-754 binary64 *)

Definition float_of_Z (z : Z) : float :=
  if z <? 0 then PrimFloat.opp (PrimFloat.of_uint63 (Uint63.of_Z (- z)))
  else PrimFloat.of_uint63 (Uint63.of_Z z).

(** [Math.min]: NaN if an argument is NaN, and -0 below +0. *)
Definition float_min (a b : float) : float :=
  if (PrimFloat.is_nan a || PrimFloat.is_nan b)%bool then PrimFloat.nan
  else if PrimFloat.ltb a b then a
  else if PrimFloat.ltb b a then b
  else if PrimFloat.get_sign a then a else b.

(** [Math.round] through the exact value [(-1)^s * m * 2^e] of the float. *)
Definition float_round (f : float) : float :=
  match Prim2SF f with
  | S754_finite s m e =>
      if 0 <=? e then f
      else
        let v := if s then Z.neg m else Z.pos m in
        let z := (2 * v + 2 ^ (- e)) / 2 ^ (1 - e) in
        if z =? 0 then (if s then PrimFloat.neg_zero else PrimFloat.zero)
        else float_of_Z z
  | _ => f
  end.

#[global] Instance float_Number : Number float := {
  num_of_Z := float_of_Z;
  num_add := PrimFloat.add;
  num_sub := PrimFloat.sub;
  num_mul := PrimFloat.mul;
  num_div := PrimFloat.div;
  num_min := float_min;
  num_round := float_round;
  num_ltb := PrimFloat.ltb
}.

(** ** utils/imageUtils.ts *)

(** A rectangle handed to [drawImage]: corner, width, height. *)
Record Rect (N : Type) := mkRect {
  rect_x : N;
  rect_y : N;
  rect_w : N;
  rect_h : N
}.
Arguments mkRect {N} _ _ _ _.
Arguments rect_x {N} _.
Arguments rect_y {N} _.
Arguments rect_w {N} _.
Arguments rect_h {N} _.

(** One grid cell: the values assigned to [canvas.width] and
    [canvas.height], and the source and destination rectangles of the
    single [drawImage] call that fills the canvas. *)
Record GridCell (N : Type) := mkGridCell {
  cell_canvas_w : N;
  cell_canvas_h : N;
  cell_src : Rect N;
  cell_dst : Rect N
}.
Arguments mkGridCell {N} _ _ _ _.
Arguments cell_canvas_w {N} _.
Arguments cell_canvas_h {N} _.
Arguments cell_src {N} _.
Arguments cell_dst {N} _.

(** The canvas [resizeToLineSpec] encodes: its size, and the placement of
    the one scaled [drawImage] on the cleared (transparent) surface. *)
Record Resized (N : Type) := mkResized {
  canvas_w : N;
  canvas_h : N;
  drawn : Blob;
  res_scale : N;
  draw_x : N;
  draw_y : N;
  draw_w : N;
  draw_h : N
}.
Arguments mkResized {N} _ _ _ _ _ _ _ _.
Arguments canvas_w {N} _.
Arguments canvas_h {N} _.
Arguments drawn {N} _.
Arguments res_scale {N} _.
Arguments draw_x {N} _.
Arguments draw_y {N} _.
Arguments draw_w {N} _.
Arguments draw_h {N} _.

Section Geometry.
Context {N : Type} `{Number N}.

(** The body of the two nested loops of [cropImageGrid] for one [(r, c)]. *)
Definition grid_cell (cellWidth cellHeight : N) (r c : nat) : GridCell N :=
  let zero := num_of_Z 0 in
  mkGridCell cellWidth cellHeight
    (mkRect (num_of_Z (Z.of_nat c) * cellWidth)%num
            (num_of_Z (Z.of_nat r) * cellHeight)%num cellWidth cellHeight)
    (mkRect zero zero cellWidth cellHeight).

(** [cropImageGrid(image, rows, cols)]: [for r < rows] / [for c < cols],
    each iteration pushing one blob.  A fresh canvas always yields a 2d
    context, so the [continue] branch is not taken. *)
Definition cropImageGrid (image : ImageData) (rows cols : Z) : list (GridCell N) :=
  let cellWidth := (num_of_Z (img_width image) / num_of_Z cols)%num in
  let cellHeight := (num_of_Z (img_height image) / num_of_Z rows)%num in
  fold_left
    (fun blobs r =>
       fold_left (fun blobs c => blobs ++ [grid_cell cellWidth cellHeight r c])
                 (seq 0 (Z.to_nat cols)) blobs)
    (seq 0 (Z.to_nat rows)) [].

(** [resizeToLineSpec(blob, targetWidth, targetHeight, padding)]. *)
Definition resizeToLineSpec (blob : Blob) (targetWidth targetHeight padding : N)
  : Resized N :=
  let img := blob_image blob in
  let two := num_of_Z 2 in
  let usableW := (targetWidth - padding * two)%num in
  let usableH := (targetHeight - padding * two)%num in
  let scale := num_min (usableW / num_of_Z (img_width img))%num
                       (usableH / num_of_Z (img_height img))%num in
  let drawW := (num_of_Z (img_width img) * scale)%num in
  let drawH := (num_of_Z (img_height img) * scale)%num in
  let x := ((targetWidth - drawW) / two)%num in
  let y := ((targetHeight - drawH) / two)%num in
  mkResized targetWidth targetHeight blob scale x y drawW drawH.

(** The default [padding = 10]. *)
Definition default_padding : N := num_of_Z 10.

End Geometry.

(** Reading a typed-array entry gives [undefined] out of range, and every
    comparison with [undefined] is false. *)
Definition js_gt (x : option Z) (t : Z) : bool :=
  match x with Some v => t <? v | None => false end.

Definition js_lt (x : option Z) (t : Z) : bool :=
  match x with Some v => v <? t | None => false end.

(** The flag computed in the loop body from [r], [g], [b]. *)
Definition shouldBeTransparent (m : RemovalMode) (t : Z) (r g b : option Z) : bool :=
  match m with
  | white => js_gt r t && js_gt g t && js_gt b t
  | black => js_lt r t && js_lt g t && js_lt b t
  | none => false
  end.

(** The pixel loop of [removeBackground]:
    [for (let i = 0; i < data.length; i += 4)].  A write past the end of a
    typed array is ignored, as is stdpp's list insert. *)
Fixpoint matte_loop (fuel : nat) (m : RemovalMode) (t : Z) (i : nat)
  (data : list Z) : list Z :=
  match fuel with
  | O => data
  | S fuel' =>
      if decide (i < length data)%nat then
        let r := data !! i in
        let g := data !! (i + 1)%nat in
        let b := data !! (i + 2)%nat in
        matte_loop fuel' m t (i + 4)%nat
          (if shouldBeTransparent m t r g b
           then <[(i + 3)%nat := 0]> data else data)
      else data
  end.

(** *** The canvas bitmap

    A 2d canvas keeps its pixels premultiplied by alpha, eight bits a
    channel.  [drawImage] and [putImageData] convert a pixel into that form,
    [getImageData] and [toBlob] convert it back, so a translucent pixel does
    not come back as it was written. *)

(** A pixel: red, green, blue, alpha. *)
Definition Pixel : Type := Z * Z * Z * Z.

Definition byte_pixel (px : Pixel) : Prop :=
  let '(r, g, b, a) := px in
  0 <= r <= 255 /\ 0 <= g <= 255 /\ 0 <= b <= 255 /\ 0 <= a <= 255.

(** Transparent black, the value of a pixel whose alpha is 0 in a
    premultiplied bitmap. *)
Definition transparent_black : Pixel := (0, 0, 0, 0).

(** [f] applied to every pixel of a flat RGBA array.  Entries after the last
    whole pixel (a real [ImageData] has none) are left as they are. *)
Fixpoint map_pixels (f : Pixel -> Pixel) (data : list Z) : list Z :=
  match data with
  | r :: g :: b :: a :: rest =>
      let '(r', g', b', a') := f (r, g, b, a) in
      r' :: g' :: b' :: a' :: map_pixels f rest
  | _ => data
  end.

(** The two conversions of a canvas.  How they round is left to the
    browser; the class records what holds of a byte pixel that is written
    and read back whatever the rounding: it is a byte pixel with the alpha
    it was written with, it is the pixel written if that one is fully
    opaque, and it is transparent black if that one is fully transparent. *)
Class Canvas := {
  premultiply : Pixel -> Pixel;
  unpremultiply : Pixel -> Pixel;
  canvas_bytes : forall px,
    byte_pixel px -> byte_pixel (unpremultiply (premultiply px));
  canvas_alpha : forall px,
    byte_pixel px -> snd (unpremultiply (premultiply px)) = snd px;
  canvas_opaque : forall px,
    byte_pixel px -> snd px = 255 -> unpremultiply (premultiply px) = px;
  canvas_clear : forall px,
    byte_pixel px -> snd px = 0 ->
    unpremultiply (premultiply px) = transparent_black
}.

(** A canvas that rounds to the nearest integer both ways:
    [c * a / 255] into the bitmap, [c * 255 / a] out of it. *)
Definition nearest_premultiply (px : Pixel) : Pixel :=
  let '(r, g, b, a) := px in
  ((2 * r * a + 255) / 510, (2 * g * a + 255) / 510, (2 * b * a + 255) / 510, a).

Definition nearest_unpremultiply (px : Pixel) : Pixel :=
  let '(r, g, b, a) := px in
  if a =? 0 then transparent_black
  else (Z.min 255 ((510 * r + a) / (2 * a)),
        Z.min 255 ((510 * g + a) / (2 * a)),
        Z.min 255 ((510 * b + a) / (2 * a)), a).

Lemma nearest_channel_bytes (c a : Z) :
  0 <= c <= 255 -> 0 < a <= 255 ->
  0 <= Z.min 255 ((510 * ((2 * c * a + 255) / 510) + a) / (2 * a)) <= 255.
Proof.
  intros Hc Ha. split; [|apply Z.le_min_l].
  apply Z.min_glb; [lia|].
  apply Z.div_pos; [|lia].
  assert (0 <= (2 * c * a + 255) / 510) by (apply Z.div_pos; nia).
  lia.
Qed.

Lemma nearest_bytes (px : Pixel) :
  byte_pixel px -> byte_pixel (nearest_unpremultiply (nearest_premultiply px)).
Proof.
  destruct px as [[[r g] b] a]. intros (Hr & Hg & Hb & Ha).
  unfold nearest_premultiply, nearest_unpremultiply.
  destruct (Z.eqb_spec a 0); [unfold transparent_black, byte_pixel; lia|].
  pose proof (nearest_channel_bytes r a Hr ltac:(lia)).
  pose proof (nearest_channel_bytes g a Hg ltac:(lia)).
  pose proof (nearest_channel_bytes b a Hb ltac:(lia)).
  unfold byte_pixel. tauto.
Qed.

Lemma nearest_alpha (px : Pixel) :
  byte_pixel px -> snd (nearest_unpremultiply (nearest_premultiply px)) = snd px.
Proof.
  destruct px as [[[r g] b] a]. intros _.
  unfold nearest_premultiply, nearest_unpremultiply.
  by destruct (Z.eqb_spec a 0) as [->|].
Qed.

Lemma nearest_opaque (px : Pixel) :
  byte_pixel px -> snd px = 255 ->
  nearest_unpremultiply (nearest_premultiply px) = px.
Proof.
  destruct px as [[[r g] b] a]. cbn. intros (Hr & Hg & Hb & Ha) ->.
  unfold nearest_premultiply, nearest_unpremultiply.
  change (255 =? 0) with false. change (2 * 255) with 510. cbv iota.
  assert (forall c, 0 <= c <= 255 ->
            Z.min 255 ((510 * ((2 * c * 255 + 255) / 510) + 255) / 510) = c)
    as Hc by (intros c Hc; Z.to_euclidean_division_equations; lia).
  by rewrite !Hc.
Qed.

Lemma nearest_clear (px : Pixel) :
  byte_pixel px -> snd px = 0 ->
  nearest_unpremultiply (nearest_premultiply px) = transparent_black.
Proof.
  destruct px as [[[r g] b] a]. cbn. intros _ ->. reflexivity.
Qed.

#[global] Instance nearest_canvas : Canvas := {|
  premultiply := nearest_premultiply;
  unpremultiply := nearest_unpremultiply;
  canvas_bytes := nearest_bytes;
  canvas_alpha := nearest_alpha;
  canvas_opaque := nearest_opaque;
  canvas_clear := nearest_clear
|}.

(** A canvas element: the values of [width] and [height], and the bitmap. *)
Record HTMLCanvasElement := mkCanvas {
  cv_width : Z;
  cv_height : Z;
  cv_bitmap : list Z
}.

Section CanvasOperations.
Context {C : Canvas}.

(** The fresh canvas given the size of [image], after
    [ctx.drawImage(image, 0, 0)]: drawn over transparent pixels, each pixel
    is the image's, premultiplied. *)
Definition drawImage (image : ImageData) : HTMLCanvasElement :=
  mkCanvas (img_width image) (img_height image)
    (map_pixels premultiply (img_data image)).

(** [ctx.getImageData(0, 0, canvas.width, canvas.height)]. *)
Definition getImageData (c : HTMLCanvasElement) : ImageData :=
  mkImageData (cv_width c) (cv_height c) (map_pixels unpremultiply (cv_bitmap c)).

(** [ctx.putImageData(imageData, 0, 0)] with an [ImageData] of the size of
    the canvas: every pixel is replaced. *)
Definition putImageData (imageData : ImageData) (c : HTMLCanvasElement)
  : HTMLCanvasElement :=
  mkCanvas (cv_width c) (cv_height c) (map_pixels premultiply (img_data imageData)).

(** [canvas.toBlob(.., 'image/png')]: the PNG holds straight alpha. *)
Definition toBlob (c : HTMLCanvasElement) : Blob :=
  mkBlob (mkImageData (cv_width c) (cv_height c)
            (map_pixels unpremultiply (cv_bitmap c))).

(** [removeBackground(image, mode, threshold)]: the canvas takes the size
    of the image and [drawImage(image, 0, 0)] fills it; unless [mode] is
    ['none'] the loop runs over the array [getImageData] returns, which
    [putImageData] writes back; [toBlob] encodes the canvas.  A fresh canvas
    always yields a 2d context.  The index advances by four, so
    [length data] iterations are enough. *)
Definition removeBackground (image : ImageData) (m : RemovalMode) (t : Z) : Blob :=
  let canvas := drawImage image in
  let canvas :=
    if decide (m <> none) then
      let imageData := getImageData canvas in
      let data := img_data imageData in
      putImageData
        (mkImageData (img_width imageData) (img_height imageData)
           (matte_loop (length data) m t 0 data))
        canvas
    else canvas in
  toBlob canvas.

(** A pixel written to the canvas and read back. *)
Definition requantise (px : Pixel) : Pixel := unpremultiply (premultiply px).

End CanvasOperations.

(** *** The matting rule as the specification words it

    A pixel is four consecutive entries; the rule looks at one pixel and at
    nothing else. *)

Definition pixel_at (data : list Z) (p : nat) : option Pixel :=
  match data !! (4 * p)%nat, data !! (4 * p + 1)%nat,
        data !! (4 * p + 2)%nat, data !! (4 * p + 3)%nat with
  | Some r, Some g, Some b, Some a => Some (r, g, b, a)
  | _, _, _, _ => None
  end.

(** Red, green and blue all exceed the threshold (['white']), or all lie
    below it (['black']). *)
Definition matte_rule (m : RemovalMode) (t : Z) (px : Pixel) : Prop :=
  let '(r, g, b, _) := px in
  match m with
  | white => t < r /\ t < g /\ t < b
  | black => r < t /\ g < t /\ b < t
  | none => False
  end.

#[global] Instance matte_rule_dec m t px : Decision (matte_rule m t px).
Proof. destruct px as [[[r g] b] a], m; cbn; apply _. Defined.

Definition matte_pixel (m : RemovalMode) (t : Z) (px : Pixel) : Pixel :=
  let '(r, g, b, a) := px in
  match m with
  | white => if decide (t < r /\ t < g /\ t < b) then (r, g, b, 0) else (r, g, b, a)
  | black => if decide (r < t /\ g < t /\ b < t) then (r, g, b, 0) else (r, g, b, a)
  | none => (r, g, b, a)
  end.

(** Every entry of the array is a byte. *)
Definition bytes (data : list Z) : Prop := Forall (fun v => 0 <= v <= 255) data.


(** Every pixel is fully opaque or transparent black, as in a raster this
    function has produced from a fully opaque one. *)
Definition crisp (data : list Z) : Prop :=
  forall p px, pixel_at data p = Some px -> snd px = 255 \/ px = transparent_black.



(** ** components/StickerEditor.tsx: the undo history *)

(** The part of the editor state the history code touches: the canvas
    raster, [history] and [historyIdx] (initially [[]] and [-1]). *)
Record EditSession := mkSession {
  canvas : ImageData;
  history : list ImageData;
  historyIdx : Z
}.

Definition openSession (c : ImageData) : EditSession := mkSession c [] (-1).

(** [prev.slice(0, e)]: a negative end counts from the end of the array. *)
Definition slice0 {A} (e : Z) (l : list A) : list A :=
  if e <? 0 then firstn (Z.to_nat (Z.of_nat (length l) + e)) l
  else firstn (Z.to_nat e) l.

(** [next.shift()]. *)
Definition shift {A} (l : list A) : list A := tl l.

(** [pushHistory], the callback of the render whose [historyIdx] is
    [renderIdx] ([useCallback] with the dependency [historyIdx]).  It
    snapshots the canvas; the updater handed to [setHistory] cuts the
    current history after the index of that render, drops the head if more
    than 15 remain and appends; the updater handed to [setHistoryIdx]
    advances the current index. *)
Definition pushHistory (renderIdx : Z) (s : EditSession) : EditSession :=
  let data := canvas s in
  let next := slice0 (renderIdx + 1) (history s) in
  let next := if (15 <? Z.of_nat (length next)) then shift next else next in
  mkSession (canvas s) (next ++ [data]) (Z.min (historyIdx s + 1) 14).

(** [handleUndo].  [putImageData(undefined, ..)] throws before the index
    is set, so a missing entry leaves the state as it was. *)
Definition handleUndo (s : EditSession) : EditSession :=
  if 0 <? historyIdx s then
    let prevIdx := historyIdx s - 1 in
    match history s !! Z.to_nat prevIdx with
    | Some data => mkSession data (history s) prevIdx
    | None => s
    end
  else s.

(** A committed edit whose [pushHistory] is that of the latest render, so
    that its index is the current one: a brush gesture (the effect
    registers [handleUp] again whenever [pushHistory] changes), or an
    automatic matting during which the index has not changed.  The edit
    leaves the raster [c] on the canvas and [pushHistory] records it. *)
Definition commit (c : ImageData) (s : EditSession) : EditSession :=
  pushHistory (historyIdx s) (mkSession c (history s) (historyIdx s)).

(** The [tempImg.onload] continuation of an [applyAuto] that was called in
    a render whose [historyIdx] was [renderIdx]: the matted raster is drawn
    on the cleared canvas and the [pushHistory] of that render runs, while
    the index may have moved on since. *)
Definition applyAuto_loaded (renderIdx : Z) (matted : ImageData) (s : EditSession)
  : EditSession :=
  pushHistory renderIdx (mkSession matted (history s) (historyIdx s)).

Definition commits (cs : list ImageData) (s : EditSession) : EditSession :=
  fold_left (fun s c => commit c s) cs s.

(** ** App.tsx: the sticker collection *)

Definition id_eqb (a b : string) : bool := bool_decide (a = b).

(** [createStickerItem(url, file, blob)]; the identifier is the value drawn
    from [Math.random()]. *)
Definition createStickerItem (newId url : string) (file : option File)
  (blob : option Blob) : StickerItem :=
  {| id := newId;
     originalFile := file;
     previewUrl := url;
     processedBlob := blob;
     processedUrl := match blob with Some _ => Some url | None => None end;
     status := match blob with Some _ => done | None => pending end;
     isMain := None;
     isTab := None;
     settings := mkSettings white 240 |}.

Definition with_status (st : Status) (s : StickerItem) : StickerItem :=
  {| id := id s; originalFile := originalFile s; previewUrl := previewUrl s;
     processedBlob := processedBlob s; processedUrl := processedUrl s;
     status := st; isMain := isMain s; isTab := isTab s;
     settings := settings s |}.

Definition with_processed (blob : Blob) (url : string) (s : StickerItem)
  : StickerItem :=
  {| id := id s; originalFile := originalFile s; previewUrl := previewUrl s;
     processedBlob := Some blob; processedUrl := Some url;
     status := done; isMain := isMain s; isTab := isTab s;
     settings := settings s |}.

Definition with_settings (st : Settings) (s : StickerItem) : StickerItem :=
  {| id := id s; originalFile := originalFile s; previewUrl := previewUrl s;
     processedBlob := processedBlob s; processedUrl := processedUrl s;
     status := status s; isMain := isMain s; isTab := isTab s;
     settings := st |}.

Definition with_isMain (v : option bool) (s : StickerItem) : StickerItem :=
  {| id := id s; originalFile := originalFile s; previewUrl := previewUrl s;
     processedBlob := processedBlob s; processedUrl := processedUrl s;
     status := status s; isMain := v; isTab := isTab s;
     settings := settings s |}.

Definition with_isTab (v : option bool) (s : StickerItem) : StickerItem :=
  {| id := id s; originalFile := originalFile s; previewUrl := previewUrl s;
     processedBlob := processedBlob s; processedUrl := processedUrl s;
     status := status s; isMain := isMain s; isTab := v;
     settings := settings s |}.

(** [prev.map(s => s.id === id ? f(s) : s)]. *)
Definition map_id (target : string) (f : StickerItem -> StickerItem)
  (prev : list StickerItem) : list StickerItem :=
  map (fun s => if id_eqb (id s) target then f s else s) prev.

(** [handleFileUpload]: each file comes with its fresh identifier and
    object URL. *)
Definition handleFileUpload (files : list (string * string * File))
  (prev : list StickerItem) : list StickerItem :=
  prev ++ map (fun '(newId, url, file) =>
                 createStickerItem newId url (Some file) None) files.

(** [handleGridUpload], the [img.onload] continuation.  [closure] is the
    [stickers] value the handler closed over; [prev] is the list at the
    time the update is applied. *)
Definition handleGridUpload (closure : list StickerItem)
  (blobs : list (string * string * Blob)) (prev : list StickerItem)
  : list StickerItem :=
  prev ++ imap (fun idx '(newId, url, blob) =>
                  let item := createStickerItem newId url None (Some blob) in
                  if ((length closure =? 0)%nat && (idx =? 0)%nat)%bool
                  then with_isTab (Some true) (with_isMain (Some true) item)
                  else item) blobs.

(** [processOne(id)] makes two of three updates, with awaits between them:
    the start (not reached when the closed-over list has no such item), then
    either the success update or the [catch] update. *)
Definition processOne_start (closure : list StickerItem) (target : string)
  (prev : list StickerItem) : list StickerItem :=
  match find (fun s => id_eqb (id s) target) closure with
  | None => prev
  | Some _ => map_id target (with_status processing) prev
  end.

Definition processOne_success (target : string) (blob : Blob) (url : string)
  (prev : list StickerItem) : list StickerItem :=
  map_id target (with_processed blob url) prev.

Definition processOne_catch (target : string) (prev : list StickerItem)
  : list StickerItem :=
  map_id target (with_status error) prev.

(** The blob [processOne] stores is the result of [removeBackground] on the
    decoded preview with the item's settings. *)
Definition processOne_blob {C : Canvas} (preview : ImageData) (item : StickerItem)
  : Blob :=
  removeBackground preview (mode (settings item)) (threshold (settings item)).

Inductive Role := main | tab.

Definition setRole (target : string) (role : Role) (prev : list StickerItem)
  : list StickerItem :=
  map (fun s =>
         match role with
         | main => with_isMain (Some (id_eqb (id s) target)) s
         | tab => with_isTab (Some (id_eqb (id s) target)) s
         end) prev.

(** The remove button: [prev.filter(it => it.id !== s.id)]. *)
Definition removeItem (target : string) (prev : list StickerItem)
  : list StickerItem :=
  List.filter (fun it => negb (id_eqb (id it) target)) prev.

(** The [onSave] callback handed to the editor. *)
Definition onSave (editingId : string) (blob : Blob) (url : string)
  (m : RemovalMode) (t : Z) (prev : list StickerItem) : list StickerItem :=
  map_id editingId
    (fun s => with_settings (mkSettings m t) (with_processed blob url s)) prev.

(** How the work between the awaits of [processOne] ends: with a blob,
    with an exception that the [catch] handles, or not at all.  The promise
    that waits for the preview sets [onload] and no [onerror], so it never
    settles when the image cannot be loaded. *)
Inductive Outcome := Succeeds (blob : Blob) (url : string) | Fails | Stalls.

Definition settles (o : Outcome) : bool :=
  match o with Stalls => false | _ => true end.

(** [processOne(id)] with no other update between its own: the collection
    when it has returned or, if it stalls, when it has come to rest. *)
Definition processOne (closure : list StickerItem) (target : string)
  (o : Outcome) (prev : list StickerItem) : list StickerItem :=
  match find (fun s => id_eqb (id s) target) closure with
  | None => prev
  | Some _ =>
      let started := map_id target (with_status processing) prev in
      match o with
      | Succeeds blob url => processOne_success target blob url started
      | Fails => processOne_catch target started
      | Stalls => started
      end
  end.

(** Whether the promise [processOne(id)] returns is ever fulfilled. *)
Definition processOne_returns (closure : list StickerItem) (target : string)
  (o : Outcome) : bool :=
  match find (fun s => id_eqb (id s) target) closure with
  | None => true
  | Some _ => settles o
  end.

(** [processAll]: [for (const s of stickers) if (s.status !== 'done') await
    processOne(s.id)], over the list the handler closed over.  The loop
    goes on to the next item when the awaited promise is fulfilled. *)
Fixpoint processAll_from (closure items : list StickerItem)
  (outcome : string -> Outcome) (prev : list StickerItem) : list StickerItem :=
  match items with
  | [] => prev
  | s :: rest =>
      if bool_decide (status s <> done) then
        let next := processOne closure (id s) (outcome (id s)) prev in
        if processOne_returns closure (id s) (outcome (id s))
        then processAll_from closure rest outcome next
        else next
      else processAll_from closure rest outcome prev
  end.

Definition processAll (closure : list StickerItem) (outcome : string -> Outcome)
  (prev : list StickerItem) : list StickerItem :=
  processAll_from closure closure outcome prev.

(** One [setStickers] call of the public operations.  The handlers are
    asynchronous, so the updates of different handlers may interleave. *)
Inductive step : list StickerItem -> list StickerItem -> Prop :=
| step_upload files prev :
    step prev (handleFileUpload files prev)
| step_grid closure blobs prev :
    step prev (handleGridUpload closure blobs prev)
| step_process_start closure target prev :
    step prev (processOne_start closure target prev)
| step_process_success target blob url prev :
    step prev (processOne_success target blob url prev)
| step_process_catch target prev :
    step prev (processOne_catch target prev)
| step_setRole target role prev :
    step prev (setRole target role prev)
| step_remove target prev :
    step prev (removeItem target prev)
| step_save editingId blob url m t prev :
    step prev (onSave editingId blob url m t prev).

(** The application starts with [useState<StickerItem[]>([])]. *)
Definition reachable (stickers : list StickerItem) : Prop := rtc step [] stickers.

(** ** App.tsx: export *)

(** [n.toString()] for an integer. *)
Definition toString (n : Z) : string := NilZero.string_of_int (Z.to_int n).

Fixpoint repeat_char (n : nat) (c : ascii) : string :=
  match n with
  | O => EmptyString
  | S n' => String c (repeat_char n' c)
  end.

(** [s.padStart(targetLength, c)] for a one-character pad string. *)
Definition padStart (targetLength : nat) (c : ascii) (s : string) : string :=
  String.append (repeat_char (targetLength - String.length s) c) s.

(** [`${(i + 1).toString().padStart(2, '0')}.png`]. *)
Definition sticker_filename (i : Z) : string :=
  String.append (padStart 2 "0"%char (toString (i + 1))) ".png".

(** [`LINE_Stickers_${exportCount}.zip`]. *)
Definition zip_filename (exportCount : Z) : string :=
  String.append "LINE_Stickers_" (String.append (toString exportCount) ".zip").

Definition alert_no_items : string := "請先處理圖片！".
Definition alert_export_failed : string := "匯出時發生錯誤".

Section ExportHandler.
Context {N : Type} `{Number N}.

(** What [handleExport] does to the outside: state setters, alerts and the
    download of the archive (folder name, entries in insertion order, file
    name). *)
Inductive Effect :=
| Alert (msg : string)
| SetIsExporting (b : bool)
| SetExportProgress (p : N)
| SaveAs (folder : string) (entries : list (string * Resized N)) (name : string).

(** Effects emitted so far, and a value unless an exception was thrown. *)
Definition Eff (A : Type) : Type := list Effect * option A.

Definition eff_ret {A} (a : A) : Eff A := ([], Some a).

Definition eff_bind {A B} (m : Eff A) (k : A -> Eff B) : Eff B :=
  match m with
  | (t, Some a) => let '(t', r) := k a in (t ++ t', r)
  | (t, None) => (t, None)
  end.

Definition emit (e : Effect) : Eff unit := ([e], Some tt).

Definition throw {A} : Eff A := ([], None).

Notation "x <- m ;; k" := (eff_bind m (fun x => k))
  (at level 100, m at next level, right associativity).
Notation "m ;;; k" := (eff_bind m (fun _ => k))
  (at level 100, right associativity).

(** [try { body } catch { handler } finally { final }]. *)
Definition try_catch_finally (body : Eff unit) (handler final : list Effect)
  : list Effect :=
  match body with
  | (t, Some _) => t ++ final
  | (t, None) => t ++ handler ++ final
  end.

(** Property access on [undefined] throws a TypeError. *)
Definition defined {A} (o : option A) : Eff A :=
  match o with Some a => eff_ret a | None => throw end.

(** [await resizeToLineSpec(item.processedBlob!, w, h)].  The [!] only
    silences the type checker: with [null], [URL.createObjectURL] throws
    inside the promise executor, the promise rejects and the [await] throws. *)
Definition await_resize (blob : option Blob) (w h : N) : Eff (Resized N) :=
  match blob with
  | Some b => eff_ret (resizeToLineSpec b w h default_padding)
  | None => throw
  end.

(** [Math.round((k / (exportCount + 2)) * 100)]. *)
Definition progress (k exportCount : Z) : N :=
  num_round ((num_of_Z k / num_of_Z (exportCount + 2)) * num_of_Z 100)%num.

(** The [for (let i = 0; i < exportCount; i++)] loop, over the indices
    still to visit; [folder] holds the entries added so far. *)
Fixpoint export_loop (doneStickers : list StickerItem) (exportCount : Z)
  (targetW targetH : N) (indices : list nat)
  (folder : list (string * Resized N)) : Eff (list (string * Resized N)) :=
  match indices with
  | [] => eff_ret folder
  | i :: rest =>
      item <- defined (doneStickers !! i) ;;
      let filename := sticker_filename (Z.of_nat i) in
      stickerBlob <- await_resize (processedBlob item) targetW targetH ;;
      emit (SetExportProgress (progress (Z.of_nat i + 1) exportCount)) ;;;
      export_loop doneStickers exportCount targetW targetH rest
        (folder ++ [(filename, stickerBlob)])
  end.

(** [stickers.filter(s => s.status === 'done' && s.processedBlob)]. *)
Definition doneStickers_of (stickers : list StickerItem) : list StickerItem :=
  List.filter (fun s => bool_decide (status s = done) &&
                        match processedBlob s with Some _ => true | None => false end)
              stickers.

(** [stickers.find(s => s.isMain) || doneStickers[0]], and the same for the tab. *)
Definition mainItem_of (stickers : list StickerItem) : option StickerItem :=
  match find (fun s => truthy (isMain s)) stickers with
  | Some s => Some s
  | None => doneStickers_of stickers !! 0%nat
  end.

Definition tabItem_of (stickers : list StickerItem) : option StickerItem :=
  match find (fun s => truthy (isTab s)) stickers with
  | Some s => Some s
  | None => doneStickers_of stickers !! 0%nat
  end.

Definition exportCount_of (stickers : list StickerItem) (config : StickerPackConfig) : Z :=
  Z.min (Z.of_nat (length (doneStickers_of stickers))) (count_value (count config)).

Definition sticker_size (config : StickerPackConfig) : Z * Z :=
  (match type config with fullscreen => 480 | standard => 370 end,
   match type config with fullscreen => 480 | standard => 320 end).

Definition main_size (config : StickerPackConfig) : Z :=
  match type config with fullscreen => 480 | standard => 240 end.

(** The body of the [try] block. *)
Definition export_body (stickers : list StickerItem) (config : StickerPackConfig)
  : Eff unit :=
  let doneStickers := doneStickers_of stickers in
  let mainItem := mainItem_of stickers in
  let tabItem := tabItem_of stickers in
  let exportCount := exportCount_of stickers config in
  let targetW := num_of_Z (fst (sticker_size config)) in
  let targetH := num_of_Z (snd (sticker_size config)) in
  folder <- export_loop doneStickers exportCount targetW targetH
              (seq 0 (Z.to_nat exportCount)) [] ;;
  let mainSize := num_of_Z (main_size config) in
  m <- defined mainItem ;;
  mainBlob <- await_resize (processedBlob m) mainSize mainSize ;;
  let folder := folder ++ [("main.png"%string, mainBlob)] in
  emit (SetExportProgress (progress (exportCount + 1) exportCount)) ;;;
  t <- defined tabItem ;;
  tabBlob <- await_resize (processedBlob t) (num_of_Z 96) (num_of_Z 74) ;;
  let folder := folder ++ [("tab.png"%string, tabBlob)] in
  emit (SetExportProgress (num_of_Z 100)) ;;;
  emit (SaveAs "line_sticker_pack" folder (zip_filename exportCount)).

(** [handleExport]. *)
Definition handleExport (stickers : list StickerItem) (config : StickerPackConfig)
  : list Effect :=
  if (length (doneStickers_of stickers) =? 0)%nat then [Alert alert_no_items]
  else
    [SetIsExporting true; SetExportProgress (num_of_Z 0)] ++
    try_catch_finally (export_body stickers config)
      [Alert alert_export_failed]
      [SetIsExporting false; SetExportProgress (num_of_Z 0)].

(** The React state the handler reads and writes. *)
Record AppState := mkApp {
  stickers : list StickerItem;
  config : StickerPackConfig;
  isExporting : bool;
  exportProgress : N
}.

Definition apply_effect (st : AppState) (e : Effect) : AppState :=
  match e with
  | SetIsExporting b => mkApp (stickers st) (config st) b (exportProgress st)
  | SetExportProgress p => mkApp (stickers st) (config st) (isExporting st) p
  | Alert _ | SaveAs _ _ _ => st
  end.

Definition run (st : AppState) (effects : list Effect) : AppState :=
  fold_left apply_effect effects st.

(** The archives handed to [saveAs] in a run. *)
Definition archives (effects : list Effect)
  : list (string * list (string * Resized N) * string) :=
  flat_map (fun e => match e with
                     | SaveAs f entries n => [(f, entries, n)]
                     | _ => []
                     end) effects.

Definition alerts (effects : list Effect) : list string :=
  flat_map (fun e => match e with Alert m => [m] | _ => [] end) effects.

End ExportHandler.

Arguments Effect N : clear implicits.
Arguments AppState N : clear implicits.

(** *** The pack as the specification words it *)

(** The decimal digit [d] as a character. *)
Definition digit_char (d : Z) : ascii := ascii_of_nat (48 + Z.to_nat d).

(** The 2-digit, zero-padded name of the artifact with 1-based number [k]. *)
Definition two_digit_name (k : Z) : string :=
  String (digit_char (k / 10)) (String (digit_char (k mod 10)) ".png").

Section ExportSpec.
Context {N : Type} `{Number N}.

(** Entry [i] of the pack: item [i] of the done list, resized to the
    sticker size with the default padding, under its sequence name. *)
Definition sticker_entry (doneStickers : list StickerItem) (targetW targetH : N)
  (i : nat) (e : string * Resized N) : Prop :=
  exists s b,
    doneStickers !! i = Some s /\ processedBlob s = Some b /\
    e = (sticker_filename (Z.of_nat i),
         resizeToLineSpec b targetW targetH default_padding).

(** The progress updates of the sticker loop. *)
Definition loop_progress (exportCount : Z) (indices : list nat) : list (Effect N) :=
  map (fun i => SetExportProgress (progress (Z.of_nat i + 1) exportCount)) indices.

End ExportSpec.

(** *** Source regions in exact arithmetic *)


(** ** Editor sessions as sequences of operations *)

(** What happens in a session: an edit committed by the latest
    [pushHistory], a press of the undo button, or the end of an automatic
    matting that was called when the index was [renderIdx]. *)
Inductive SessionOp :=
| Commit (c : ImageData)
| Undo
| Auto (renderIdx : Z) (c : ImageData).

Definition session_step (s : EditSession) (op : SessionOp) : EditSession :=
  match op with
  | Commit c => commit c s
  | Undo => handleUndo s
  | Auto renderIdx c => applyAuto_loaded renderIdx c s
  end.

Definition run_session (ops : list SessionOp) (s : EditSession) : EditSession :=
  fold_left session_step ops s.

(** What holds of the history in every session: the index lies between -1
    and 14, and the history has at most sixteen entries. *)
Definition history_ok (s : EditSession) : Prop :=
  -1 <= historyIdx s <= 14 /\ (length (history s) <= 16)%nat.

(** The two halves of the status invariant the collection maintains. *)
Definition done_has_blob (s : StickerItem) : Prop :=
  status s = done -> is_Some (processedBlob s).

Definition pending_has_no_blob (s : StickerItem) : Prop :=
  status s = pending -> processedBlob s = None.

(** ** Sample inputs *)

(** A one-pixel source whose pixel is fully transparent. *)
Definition transparent_pixel_image : ImageData := mkImageData 1 1 [0; 0; 0; 0].

Definition sample_image : ImageData :=
  mkImageData 2 1 [255; 255; 255; 255; 0; 0; 0; 200].


(** Two opaque pixels, one light and one dark. *)
Definition two_tone_image : ImageData :=
  mkImageData 2 1 [250; 250; 250; 255; 10; 20; 30; 255].

(** A one-pixel grey raster of the given level. *)
Definition grey (level : Z) : ImageData := mkImageData 1 1 [level; level; level; 255].

(** Sixteen different rasters, one per committed edit. *)
Definition sixteen_edits : list ImageData :=
  map grey [1; 2; 3; 4; 5; 6; 7; 8; 9; 10; 11; 12; 13; 14; 15; 16].

(** Two uploaded files, both pending. *)
Definition two_uploads : list StickerItem :=
  handleFileUpload [("a", "blob:a", mkFile "a.png"); ("b", "blob:b", mkFile "b.png")] [].

Definition edited_blob : Blob := mkBlob (grey 7).
Definition matted_blob : Blob := mkBlob (grey 9).

(** While "process all" works on the first upload, the second is saved from
    the editor; "process all" then starts on the second from the list it
    closed over, in which that item is still pending. *)
Definition reprocessing_trace : list (list StickerItem) :=
  let s1 := two_uploads in
  let s2 := processOne_start s1 "a" s1 in
  let s3 := onSave "b" edited_blob "blob:b2" white 240 s2 in
  let s4 := processOne_success "a" matted_blob "blob:a2" s3 in
  let s5 := processOne_start s1 "b" s4 in
  [s1; s2; s3; s4; s5].

Definition reprocessing_state : list StickerItem :=
  List.last reprocessing_trace [].

(** The processing started last in that state ends in the [catch]. *)
Definition reprocessing_failed : list StickerItem :=
  processOne_catch "b" reprocessing_state.

(** Two uploaded files, the first chosen as main image and still
    unprocessed, the second saved from the editor. *)
Definition flagged_unprocessed : list StickerItem :=
  onSave "b" edited_blob "blob:b2" white 240 (setRole "a" main two_uploads).

Definition standard16 : StickerPackConfig := mkConfig count16 standard.

(** A collection in which nothing has been processed. *)
Definition pending_only : AppState float :=
  mkApp two_uploads standard16 false 0%float.

(** An opaque white raster of the given size. *)
Definition blank (w h : Z) : ImageData :=
  mkImageData w h (repeat 255 (Z.to_nat (4 * w * h))).

(** A 77 x 60 source, resized for a standard sticker. *)
Definition wide_source : Blob := mkBlob (blank 77 60).


(** * Further definitions *)

(** ** App.tsx: pack configuration and the suggested grid *)

(** [gridConfig], initially [{ rows: 4, cols: 4 }]. *)
Record GridConfig := mkGrid {
  grid_rows : Z;
  grid_cols : Z
}.

(** [suggestGrid(count)]: a [switch] with a [default] that changes nothing. *)
Definition suggestGrid (n : Z) (g : GridConfig) : GridConfig :=
  if n =? 8 then mkGrid 2 4
  else if n =? 16 then mkGrid 4 4
  else if n =? 24 then mkGrid 4 6
  else if n =? 32 then mkGrid 4 8
  else if n =? 40 then mkGrid 5 8
  else g.

(** [handleConfigChange(newCount)]: the count is replaced, the type kept,
    and the grid suggested. *)
Definition handleConfigChange (newCount : PackCount)
  (st : StickerPackConfig * GridConfig) : StickerPackConfig * GridConfig :=
  (mkConfig newCount (type (fst st)), suggestGrid (count_value newCount) (snd st)).


(** ** components/StickerEditor.tsx: repeated undo, zoom *)

(** [k] presses of the undo button. *)
Definition undos (k : nat) (s : EditSession) : EditSession :=
  Nat.iter k handleUndo s.

(** [Math.max]: NaN if an argument is NaN, and +0 above -0. *)
Definition float_max (a b : float) : float :=
  if (PrimFloat.is_nan a || PrimFloat.is_nan b)%bool then PrimFloat.nan
  else if PrimFloat.ltb a b then b
  else if PrimFloat.ltb b a then a
  else if PrimFloat.get_sign a then b else a.

(** The double nearest to one tenth, which is what the literal [0.1]
    denotes. *)
Definition tenth : float := 0x1.999999999999ap-4%float.

(** The [onWheel] handler:
    [setScale(s => Math.max(0.1, Math.min(10, s + (e.deltaY < 0 ? 0.1 : -0.1))))]. *)
Definition handleWheel (deltaY : float) (s : float) : float :=
  float_max tenth
    (float_min 10 (s + (if PrimFloat.ltb deltaY 0 then tenth else - tenth)))%float.

(** The scale after a sequence of wheel events, from [useState(1)]. *)
Definition zoom (deltas : list float) : float :=
  fold_left (fun s d => handleWheel d s) deltas 1%float.

Definition float_mem (x : float) (l : list float) : bool :=
  existsb (fun y => PrimFloat.Leibniz.eqb y x) l.

(** The scales reachable from 1, found by closing [[1]] under a step in
    and a step out. *)
Fixpoint zoom_closure (fuel : nat) (seen frontier : list float) : list float :=
  match fuel with
  | O => seen
  | S fuel' =>
      let next :=
        fold_left
          (fun acc s =>
             let up := handleWheel (-1)%float s in
             let down := handleWheel 1%float s in
             let acc := if float_mem up (seen ++ acc) then acc else acc ++ [up] in
             if float_mem down (seen ++ acc) then acc else acc ++ [down])
          frontier [] in
      match next with
      | [] => seen
      | _ => zoom_closure fuel' (seen ++ next) next
      end
  end.

Definition zoom_levels : list float := zoom_closure 1000 [1%float] [1%float].


(** ** components/StickerEditor.tsx: pointer gestures *)

Inductive Tool := tool_eraser | tool_restore | tool_move.

(** What the handlers read from a mouse event: [button], [altKey],
    [clientX], [clientY], and the corner of the canvas's bounding rectangle
    at that moment. *)
Record Pointer (N : Type) := mkPointer {
  button : Z;
  altKey : bool;
  clientX : N;
  clientY : N;
  rectLeft : N;
  rectTop : N
}.
Arguments mkPointer {N} _ _ _ _ _ _.
Arguments button {N} _.
Arguments altKey {N} _.
Arguments clientX {N} _.
Arguments clientY {N} _.
Arguments rectLeft {N} _.
Arguments rectTop {N} _.

(** The editor state the pointer handlers read and write. *)
Record Editor (N : Type) := mkEditor {
  ed_session : EditSession;
  ed_original : option ImageData;   (* originalImageRef.current *)
  ed_tool : Tool;                   (* activeTool *)
  ed_brushSize : N;
  ed_scale : N;
  ed_pan : N * N;
  ed_isDrawing : bool;
  ed_isPanning : bool;
  ed_lastMousePos : N * N
}.
Arguments mkEditor {N} _ _ _ _ _ _ _ _ _.
Arguments ed_session {N} _.
Arguments ed_original {N} _.
Arguments ed_tool {N} _.
Arguments ed_brushSize {N} _.
Arguments ed_scale {N} _.
Arguments ed_pan {N} _.
Arguments ed_isDrawing {N} _.
Arguments ed_isPanning {N} _.
Arguments ed_lastMousePos {N} _.

Section Gestures.
Context {N : Type} `{Number N}.

(** The two brush strokes rasterise a disc (centre, radius) on the canvas:
    the eraser clears it, the restore brush copies it from the original.
    Which pixels a disc covers is the canvas implementation's business. *)
Variable erase_disc : N -> N -> N -> ImageData -> ImageData.
Variable restore_disc : N -> N -> N -> ImageData -> ImageData -> ImageData.

Definition with_canvas (c : ImageData) (s : EditSession) : EditSession :=
  mkSession c (history s) (historyIdx s).

(** The raster after one [draw] at the pointer, for the tool, brush, zoom
    and original of [ed]. *)
Definition stroke (ed : Editor N) (e : Pointer N) (c : ImageData) : ImageData :=
  let x := ((clientX e - rectLeft e) / ed_scale ed)%num in
  let y := ((clientY e - rectTop e) / ed_scale ed)%num in
  let radius := (ed_brushSize ed / num_of_Z 2)%num in
  match ed_tool ed with
  | tool_eraser => erase_disc x y radius c
  | tool_restore =>
      match ed_original ed with
      | Some original => restore_disc x y radius original c
      | None => c
      end
  | tool_move => c
  end.

(** [draw(e, isStart)]. *)
Definition draw (e : Pointer N) (isStart : bool) (ed : Editor N) : Editor N :=
  if (negb (ed_isDrawing ed) && negb isStart)%bool then ed
  else
    mkEditor (with_canvas (stroke ed e (canvas (ed_session ed))) (ed_session ed))
      (ed_original ed) (ed_tool ed) (ed_brushSize ed) (ed_scale ed) (ed_pan ed)
      (ed_isDrawing ed) (ed_isPanning ed) (ed_lastMousePos ed).

(** The test of [handlePointerDown]:
    [activeTool === 'move' || e.button === 1 || e.altKey]. *)
Definition starts_pan (e : Pointer N) (ed : Editor N) : bool :=
  (match ed_tool ed with tool_move => true | _ => false end
   || (button e =? 1) || altKey e)%bool.

Definition handlePointerDown (e : Pointer N) (ed : Editor N) : Editor N :=
  if starts_pan e ed then
    mkEditor (ed_session ed) (ed_original ed) (ed_tool ed) (ed_brushSize ed)
      (ed_scale ed) (ed_pan ed) (ed_isDrawing ed) true (clientX e, clientY e)
  else
    draw e true
      (mkEditor (ed_session ed) (ed_original ed) (ed_tool ed) (ed_brushSize ed)
         (ed_scale ed) (ed_pan ed) true (ed_isPanning ed) (ed_lastMousePos ed)).

(** [handleMove], the [mousemove] listener. *)
Definition handleMove (e : Pointer N) (ed : Editor N) : Editor N :=
  if ed_isPanning ed then
    let dx := (clientX e - fst (ed_lastMousePos ed))%num in
    let dy := (clientY e - snd (ed_lastMousePos ed))%num in
    mkEditor (ed_session ed) (ed_original ed) (ed_tool ed) (ed_brushSize ed)
      (ed_scale ed) ((fst (ed_pan ed) + dx)%num, (snd (ed_pan ed) + dy)%num)
      (ed_isDrawing ed) (ed_isPanning ed) (clientX e, clientY e)
  else if ed_isDrawing ed then draw e false ed
  else ed.

(** [handleUp], the [mouseup] listener.  The effect lists [pushHistory]
    among its dependencies, so the listener holds the callback of the
    latest render, whose index is the current one. *)
Definition handleUp (ed : Editor N) : Editor N :=
  mkEditor (if ed_isDrawing ed
            then pushHistory (historyIdx (ed_session ed)) (ed_session ed)
            else ed_session ed)
    (ed_original ed) (ed_tool ed) (ed_brushSize ed) (ed_scale ed) (ed_pan ed)
    false false (ed_lastMousePos ed).

(** One gesture: button down, any number of moves, button up. *)
Definition gesture (e0 : Pointer N) (moves : list (Pointer N)) (ed : Editor N)
  : Editor N :=
  handleUp (fold_left (fun ed e => handleMove e ed) moves (handlePointerDown e0 ed)).

End Gestures.


(** Sample editor: a one-pixel canvas, eraser selected, nothing in progress;
    a brush that blanks the canvas stands in for the rasteriser. *)
Definition sample_erase : Q -> Q -> Q -> ImageData -> ImageData :=
  fun _ _ _ _ => transparent_pixel_image.

Definition sample_restore : Q -> Q -> Q -> ImageData -> ImageData -> ImageData :=
  fun _ _ _ original _ => original.

Definition sample_editor : Editor Q :=
  mkEditor (commit (grey 5) (openSession (grey 5))) (Some (grey 9)) tool_eraser
    20%Q 1%Q (0%Q, 0%Q) false false (0%Q, 0%Q).

Definition left_click (x y : Q) : Pointer Q := mkPointer 0 false x y 0%Q 0%Q.
Definition middle_click (x y : Q) : Pointer Q := mkPointer 1 false x y 0%Q 0%Q.


(** ** App.tsx: what whole runs amount to *)

(** The item [processOne] leaves behind, by outcome. *)
Definition finish (o : Outcome) (s : StickerItem) : StickerItem :=
  match o with
  | Succeeds blob url => with_processed blob url s
  | Fails => with_status error s
  | Stalls => with_status processing s
  end.

(** The items "process all" gets to: those up to and including the first
    not-yet-done item on which [processOne] stalls. *)
Fixpoint visited (outcome : string -> Outcome) (items : list StickerItem)
  : list StickerItem :=
  match items with
  | [] => []
  | s :: rest =>
      if (bool_decide (status s <> done) && negb (settles (outcome (id s))))%bool
      then [s]
      else s :: visited outcome rest
  end.

(** Some item of [items] that is not ['done'] has the identifier [x]. *)
Definition pending_id (items : list StickerItem) (x : string) : bool :=
  existsb (fun s => bool_decide (status s <> done) && id_eqb (id s) x) items.

(** The main and the tab item [handleExport] resolves both carry a blob. *)
Definition export_ready (stickers : list StickerItem) : bool :=
  match mainItem_of stickers, tabItem_of stickers with
  | Some m, Some t =>
      match processedBlob m, processedBlob t with
      | Some _, Some _ => true
      | _, _ => false
      end
  | _, _ => false
  end.

(** [100 * k / (exportCount + 2)] rounded to the nearest integer, ties up. *)
Definition percent (k exportCount : Z) : Z :=
  (200 * k + (exportCount + 2)) / (2 * (exportCount + 2)).


(** Every item of a reachable collection that has a URL for its processed
    image has the blob, and conversely; a pending item has neither. *)
Definition url_matches_blob (s : StickerItem) : Prop :=
  (is_Some (processedUrl s) <-> is_Some (processedBlob s)) /\
  (status s = pending -> processedBlob s = None).


(** A state in which an export starts and fails, and one grid upload onto
    the empty collection. *)
Definition failing_export_state : AppState float :=
  mkApp flagged_unprocessed standard16 false 0%float.

(** The check behind the progress table: for every pack of 1 to 40 stickers
    and every step [k] of its export, the double-precision progress value
    does not decrease at the next step, lies between 0 and 100, and is the
    exactly rounded percentage or one below it. *)
Definition progress_table_ok : bool :=
  forallb
    (fun n =>
       forallb
         (fun k =>
            let p := progress (N:=float) k n in
            PrimFloat.leb p (progress (N:=float) (k + 1) n)
            && PrimFloat.leb 0 p && PrimFloat.leb p 100
            && (PrimFloat.Leibniz.eqb p (float_of_Z (percent k n))
                || PrimFloat.Leibniz.eqb p (float_of_Z (percent k n - 1))))
         (seqZ 1 (n + 1)))
    (seqZ 1 40).

(** * Theorems *)

(** ** Matting *)

(** Induction over a flat array, one pixel at a time. *)
Lemma pixels_ind (P : list Z -> Prop) :
  (forall data, (length data < 4)%nat -> P data) ->
  (forall r g b a rest, P rest -> P (r :: g :: b :: a :: rest)) ->
  forall data, P data.
Proof.
  intros Hshort Hstep data.
  remember (length data) as n eqn:Hn. revert data Hn.
  induction n as [n IH] using lt_wf_ind. intros data ->.
  destruct data as [|r [|g [|b [|a rest]]]]; try (apply Hshort; cbn; lia).
  apply Hstep. eapply IH; [|done]. cbn. lia.
Qed.

Lemma map_pixels_short f data : (length data < 4)%nat -> map_pixels f data = data.
Proof. by destruct data as [|r [|g [|b [|a rest]]]]; [..|cbn; lia]. Qed.

Lemma map_pixels_cons f r g b a rest :
  map_pixels f (r :: g :: b :: a :: rest)
  = (let '(r', g', b', a') := f (r, g, b, a) in
     r' :: g' :: b' :: a' :: map_pixels f rest).
Proof. reflexivity. Qed.


Lemma pixel_at_short data p : (length data < 4)%nat -> pixel_at data p = None.
Proof.
  intros Hs. unfold pixel_at.
  rewrite (lookup_ge_None_2 data (4 * p + 3)) by lia.
  by destruct (data !! (4 * p)%nat), (data !! (4 * p + 1)%nat), (data !! (4 * p + 2)%nat).
Qed.

Lemma pixel_at_0 r g b a rest : pixel_at (r :: g :: b :: a :: rest) 0 = Some (r, g, b, a).
Proof. reflexivity. Qed.

Lemma pixel_at_S r g b a rest p :
  pixel_at (r :: g :: b :: a :: rest) (S p) = pixel_at rest p.
Proof.
  unfold pixel_at.
  replace (4 * S p)%nat with (S (S (S (S (4 * p))))) by lia.
  replace (S (S (S (S (4 * p)))) + 1)%nat with (S (S (S (S (4 * p + 1))))) by lia.
  replace (S (S (S (S (4 * p)))) + 2)%nat with (S (S (S (S (4 * p + 2))))) by lia.
  replace (S (S (S (S (4 * p)))) + 3)%nat with (S (S (S (S (4 * p + 3))))) by lia.
  reflexivity.
Qed.

Lemma pixel_at_map_pixels f data : forall p,
  pixel_at (map_pixels f data) p = f <$> pixel_at data p.
Proof.
  induction data as [data Hs|r g b a rest IH] using pixels_ind; intros p.
  - by rewrite map_pixels_short, pixel_at_short.
  - rewrite map_pixels_cons. destruct (f (r, g, b, a)) as [[[r' g'] b'] a'] eqn:Hf.
    destruct p as [|p].
    + rewrite !pixel_at_0. cbn. by rewrite Hf.
    + rewrite !pixel_at_S. apply IH.
Qed.

Lemma map_pixels_compose f g data :
  map_pixels f (map_pixels g data) = map_pixels (fun px => f (g px)) data.
Proof.
  induction data as [data Hs|r gr b a rest IH] using pixels_ind.
  - by rewrite !map_pixels_short by (rewrite ?map_pixels_short; done).
  - rewrite (map_pixels_cons g), (map_pixels_cons (fun px => f (g px))).
    destruct (g (r, gr, b, a)) as [[[r1 g1] b1] a1].
    rewrite map_pixels_cons.
    destruct (f (r1, g1, b1, a1)) as [[[r2 g2] b2] a2]. by rewrite IH.
Qed.

(** Two pixel functions that agree on the pixels of an array give the same
    array. *)
Lemma map_pixels_ext_in f g data :
  (forall p px, pixel_at data p = Some px -> f px = g px) ->
  map_pixels f data = map_pixels g data.
Proof.
  induction data as [data Hs|r gr b a rest IH] using pixels_ind; intros Hfg.
  - by rewrite !map_pixels_short.
  - rewrite !map_pixels_cons, (Hfg 0%nat (r, gr, b, a)) by apply pixel_at_0.
    destruct (g (r, gr, b, a)) as [[[r1 g1] b1] a1].
    rewrite IH; [done|]. intros p px Hp. apply (Hfg (S p)). by rewrite pixel_at_S.
Qed.


Lemma bytes_lookup data j v : bytes data -> data !! j = Some v -> 0 <= v <= 255.
Proof. intros Hb Hj. exact (proj1 (Forall_lookup _ _) Hb j v Hj). Qed.

Lemma bytes_pixel_at data p px : bytes data -> pixel_at data p = Some px -> byte_pixel px.
Proof.
  intros Hb. unfold pixel_at.
  destruct (data !! (4 * p)%nat) as [r|] eqn:Hr; [|done].
  destruct (data !! (4 * p + 1)%nat) as [g|] eqn:Hg; [|done].
  destruct (data !! (4 * p + 2)%nat) as [b|] eqn:Hbl; [|done].
  destruct (data !! (4 * p + 3)%nat) as [a|] eqn:Ha; [|done].
  intros [= <-]. repeat split; eapply (bytes_lookup data); eassumption.
Qed.

Lemma lookup_app_plus {A} (pre l : list A) (k : nat) :
  (pre ++ l) !! (length pre + k)%nat = l !! k.
Proof. rewrite lookup_app_r by lia. f_equal. lia. Qed.

Section Matting.
Variables (m : RemovalMode) (t : Z).

Lemma matte_loop_length fuel : forall i data,
  length (matte_loop fuel m t i data) = length data.
Proof.
  induction fuel as [|fuel IH]; intros i data; cbn [matte_loop]; [done|].
  case_decide; [|done].
  rewrite IH. destruct (shouldBeTransparent _ _ _ _ _); [|done].
  by rewrite length_insert.
Qed.

Lemma matte_loop_past fuel i data :
  (length data <= i)%nat -> matte_loop fuel m t i data = data.
Proof. intros Hi. destruct fuel; cbn [matte_loop]; [done|]. case_decide; [lia|done]. Qed.

Lemma shouldBeTransparent_matte_pixel r g b a :
  matte_pixel m t (r, g, b, a) =
    (r, g, b, if shouldBeTransparent m t (Some r) (Some g) (Some b) then 0 else a).
Proof.
  unfold matte_pixel, shouldBeTransparent, js_gt, js_lt.
  destruct m; [| |done]; case_decide as Hd.
  - destruct Hd as (?&?&?).
    by rewrite !(proj2 (Z.ltb_lt _ _)) by done.
  - destruct (Z.ltb_spec t r), (Z.ltb_spec t g), (Z.ltb_spec t b);
      simpl; try done; exfalso; apply Hd; done.
  - destruct Hd as (?&?&?).
    by rewrite !(proj2 (Z.ltb_lt _ _)) by done.
  - destruct (Z.ltb_spec r t), (Z.ltb_spec g t), (Z.ltb_spec b t);
      simpl; try done; exfalso; apply Hd; done.
Qed.

Lemma shouldBeTransparent_missing r g :
  shouldBeTransparent m t r g None = false.
Proof.
  unfold shouldBeTransparent, js_gt, js_lt.
  destruct m, r, g; cbn; rewrite ?andb_false_r; done.
Qed.

(** The loop, started at the end of the part [done_part] it has dealt
    with, applies the rule to every pixel of the rest. *)
Lemma matte_loop_app fuel : forall data done_part,
  (length data <= 4 * fuel)%nat ->
  matte_loop fuel m t (length done_part) (done_part ++ data)
  = done_part ++ map_pixels (matte_pixel m t) data.
Proof.
  induction fuel as [|fuel IH]; intros data pre Hfuel.
  { destruct data; [done|cbn in Hfuel; lia]. }
  cbn [matte_loop].
  destruct data as [|r [|g [|b [|a rest]]]].
  - rewrite decide_False by (rewrite app_nil_r; lia). done.
  - rewrite decide_True by (rewrite length_app; cbn; lia).
    rewrite (lookup_ge_None_2 _ (length pre + 2)) by (rewrite length_app; cbn; lia).
    rewrite shouldBeTransparent_missing.
    apply matte_loop_past. rewrite length_app. cbn. lia.
  - rewrite decide_True by (rewrite length_app; cbn; lia).
    rewrite (lookup_ge_None_2 _ (length pre + 2)) by (rewrite length_app; cbn; lia).
    rewrite shouldBeTransparent_missing.
    apply matte_loop_past. rewrite length_app. cbn. lia.
  - rewrite decide_True by (rewrite length_app; cbn; lia).
    rewrite matte_loop_past.
    + destruct (shouldBeTransparent _ _ _ _ _); [|done].
      apply list_insert_ge. rewrite length_app. cbn. lia.
    + destruct (shouldBeTransparent _ _ _ _ _);
        rewrite ?length_insert, length_app; cbn; lia.
  - rewrite decide_True by (rewrite length_app; cbn; lia).
    rewrite (list_lookup_middle pre _ r (length pre) eq_refl).
    rewrite !lookup_app_plus. cbn [lookup list_lookup].
    rewrite map_pixels_cons, shouldBeTransparent_matte_pixel.
    assert ((if shouldBeTransparent m t (Some r) (Some g) (Some b)
             then <[(length pre + 3)%nat:=0]> (pre ++ r :: g :: b :: a :: rest)
             else pre ++ r :: g :: b :: a :: rest)
            = (pre ++ [r; g; b;
                       if shouldBeTransparent m t (Some r) (Some g) (Some b)
                       then 0 else a]) ++ rest) as ->.
    { destruct (shouldBeTransparent _ _ _ _ _).
      - rewrite insert_app_r_alt by lia.
        replace (length pre + 3 - length pre)%nat with 3%nat by lia.
        cbn. by rewrite <- app_assoc.
      - by rewrite <- app_assoc. }
    replace (length pre + 4)%nat
      with (length (pre ++ [r; g; b;
                            if shouldBeTransparent m t (Some r) (Some g) (Some b)
                            then 0 else a]))
      by (rewrite length_app; cbn; lia).
    rewrite IH by (cbn in Hfuel; lia).
    by rewrite <- app_assoc.
Qed.

Lemma matte_loop_map_pixels data :
  matte_loop (length data) m t 0 data = map_pixels (matte_pixel m t) data.
Proof. apply (matte_loop_app (length data) data []). lia. Qed.

End Matting.

Lemma matte_pixel_rule m t px :
  matte_pixel m t px
  = if decide (matte_rule m t px) then (fst px, 0) else px.
Proof.
  destruct px as [[[r g] b] a]. unfold matte_pixel, matte_rule.
  destruct m; cbn; repeat case_decide; try done; tauto.
Qed.

Section CanvasFacts.
Context {C : Canvas}.

(** What [removeBackground] does to one pixel. *)
Lemma removeBackground_data image m t :
  img_data (blob_image (removeBackground image m t))
  = map_pixels (fun px => if decide (m <> none)
                          then requantise (matte_pixel m t (requantise px))
                          else requantise px)
               (img_data image).
Proof.
  unfold removeBackground, toBlob, putImageData, getImageData, drawImage.
  cbn [blob_image img_data cv_bitmap cv_width cv_height].
  case_decide as Hm; cbn [blob_image img_data cv_bitmap cv_width cv_height].
  - rewrite matte_loop_map_pixels, !map_pixels_compose. done.
  - by rewrite map_pixels_compose.
Qed.

Lemma removeBackground_width image m t :
  img_width (blob_image (removeBackground image m t)) = img_width image.
Proof. unfold removeBackground. by case_decide. Qed.

Lemma removeBackground_height image m t :
  img_height (blob_image (removeBackground image m t)) = img_height image.
Proof. unfold removeBackground. by case_decide. Qed.


Lemma removeBackground_pixel image m t p :
  pixel_at (img_data (blob_image (removeBackground image m t))) p
  = (fun px => if decide (m <> none)
               then requantise (matte_pixel m t (requantise px))
               else requantise px) <$> pixel_at (img_data image) p.
Proof. by rewrite removeBackground_data, pixel_at_map_pixels. Qed.

Lemma requantise_bytes px : byte_pixel px -> byte_pixel (requantise px).
Proof. apply canvas_bytes. Qed.

Lemma requantise_alpha px : byte_pixel px -> snd (requantise px) = snd px.
Proof. apply canvas_alpha. Qed.

Lemma requantise_opaque px : byte_pixel px -> snd px = 255 -> requantise px = px.
Proof. apply canvas_opaque. Qed.

Lemma requantise_clear px :
  byte_pixel px -> snd px = 0 -> requantise px = transparent_black.
Proof. apply canvas_clear. Qed.

Lemma byte_pixel_cleared px : byte_pixel px -> byte_pixel (fst px, 0).
Proof. destruct px as [[[r g] b] a]. cbn. lia. Qed.

(** A pixel to which the rule applies as the canvas holds it comes back
    transparent black. *)
Lemma blob_pixel_cleared m t px :
  byte_pixel px -> matte_rule m t (requantise px) ->
  requantise (matte_pixel m t (requantise px)) = transparent_black.
Proof.
  intros Hpx Hrule. rewrite matte_pixel_rule, decide_True by done.
  apply requantise_clear; [|done]. by apply byte_pixel_cleared, requantise_bytes.
Qed.


Lemma matte_rule_none t px : ~ matte_rule none t px.
Proof. destruct px as [[[r g] b] a]. intros []. Qed.

(** The pixel of the blob in terms of the source pixel, for a source pixel
    that is fully opaque or transparent black. *)
Lemma blob_pixel_crisp m t px :
  byte_pixel px -> snd px = 255 \/ px = transparent_black ->
  (if decide (m <> none)
   then requantise (matte_pixel m t (requantise px))
   else requantise px)
  = if decide (matte_rule m t px) then transparent_black else px.
Proof.
  intros Hpx Hcrisp.
  assert (requantise px = px) as Hq.
  { destruct Hcrisp as [Hop| ->]; [by apply requantise_opaque|].
    by apply requantise_clear. }
  case_decide as Hm.
  - rewrite Hq. case_decide as Hrule.
    + rewrite <- Hq at 1. apply blob_pixel_cleared; [done|by rewrite Hq].
    + rewrite matte_pixel_rule, decide_False by done. exact Hq.
  - assert (m = none) as -> by (destruct m; congruence).
    rewrite decide_False by apply matte_rule_none. exact Hq.
Qed.

Lemma removeBackground_eq image m t :
  removeBackground image m t
  = mkBlob (mkImageData (img_width image) (img_height image)
              (map_pixels (fun px => if decide (m <> none)
                                     then requantise (matte_pixel m t (requantise px))
                                     else requantise px)
                          (img_data image))).
Proof.
  rewrite <- removeBackground_data, <- (removeBackground_width image m t),
    <- (removeBackground_height image m t).
  by destruct (removeBackground image m t) as [[w h d]].
Qed.







Lemma requantise_all_white t px : byte_pixel px -> t < 0 -> matte_rule white t (requantise px).
Proof.
  intros Hpx Ht. apply requantise_bytes in Hpx.
  destruct (requantise px) as [[[r g] b] a]. cbn in *. lia.
Qed.

Lemma requantise_all_black t px : byte_pixel px -> 255 < t -> matte_rule black t (requantise px).
Proof.
  intros Hpx Ht. apply requantise_bytes in Hpx.
  destruct (requantise px) as [[[r g] b] a]. cbn in *. lia.
Qed.

(** The pixel two mattings in a row leave of a pixel that is fully opaque
    or transparent black. *)
Lemma blob_pixel_twice m1 t1 m2 t2 px :
  byte_pixel px -> snd px = 255 \/ px = transparent_black ->
  (if decide (m2 <> none)
   then requantise (matte_pixel m2 t2
                      (requantise
                         (if decide (m1 <> none)
                          then requantise (matte_pixel m1 t1 (requantise px))
                          else requantise px)))
   else requantise
          (if decide (m1 <> none)
           then requantise (matte_pixel m1 t1 (requantise px))
           else requantise px))
  = if decide (matte_rule m1 t1 px \/ matte_rule m2 t2 px)
    then transparent_black else px.
Proof.
  intros Hpx Hcrisp. rewrite (blob_pixel_crisp m1 t1 px Hpx Hcrisp).
  assert (byte_pixel transparent_black) as Htb by (cbn; lia).
  destruct (decide (matte_rule m1 t1 px)) as [H1|H1].
  - rewrite (blob_pixel_crisp m2 t2 _ Htb) by (by right).
    rewrite (decide_True (P := _ \/ _)) by (by left). by case_decide.
  - rewrite (blob_pixel_crisp m2 t2 px Hpx Hcrisp).
    destruct (decide (matte_rule m2 t2 px)) as [H2|H2].
    + by rewrite decide_True by (by right).
    + by rewrite decide_False by tauto.
Qed.

Lemma removeBackground_twice image m1 t1 m2 t2 :
  bytes (img_data image) -> crisp (img_data image) ->
  removeBackground (blob_image (removeBackground image m1 t1)) m2 t2
  = mkBlob (mkImageData (img_width image) (img_height image)
              (map_pixels (fun px => if decide (matte_rule m1 t1 px \/ matte_rule m2 t2 px)
                                     then transparent_black else px)
                          (img_data image))).
Proof.
  intros Hb Hc. rewrite (removeBackground_eq (blob_image _)).
  rewrite removeBackground_width, removeBackground_height, removeBackground_data.
  rewrite map_pixels_compose. do 2 f_equal.
  apply map_pixels_ext_in. intros p px Hp.
  apply blob_pixel_twice; [by eapply bytes_pixel_at|by eapply Hc].
Qed.

Lemma removeBackground_crisp image m t :
  bytes (img_data image) -> crisp (img_data image) ->
  removeBackground image m t
  = mkBlob (mkImageData (img_width image) (img_height image)
              (map_pixels (fun px => if decide (matte_rule m t px)
                                     then transparent_black else px)
                          (img_data image))).
Proof.
  intros Hb Hc. rewrite removeBackground_eq. do 2 f_equal.
  apply map_pixels_ext_in. intros p px Hp.
  apply blob_pixel_crisp; [by eapply bytes_pixel_at|by eapply Hc].
Qed.

Lemma bytes_sample l : forallb (fun v => (0 <=? v) && (v <=? 255)) l = true -> bytes l.
Proof.
  intros Hl. apply Forall_forall. intros v Hv.
  apply list_elem_of_In in Hv.
  pose proof (proj1 (forallb_forall _ l) Hl v Hv) as Hc. cbv beta in Hc. lia.
Qed.




End CanvasFacts.







(** ** Undo history *)

Lemma slice0_nonneg {A} (e : nat) (l : list A) : slice0 (Z.of_nat e) l = firstn e l.
Proof.
  unfold slice0. destruct (Z.ltb_spec (Z.of_nat e) 0); [lia|].
  by rewrite Nat2Z.id.
Qed.

Lemma commits_snoc cs c s : commits (cs ++ [c]) s = commit c (commits cs s).
Proof. unfold commits. by rewrite fold_left_app. Qed.

(** The history of a fresh session after the edits [cs]: all of them up to
    fifteen; from sixteen on, the first fifteen and the newest one. *)
Lemma commits_history c0 : forall cs,
  let s := commits cs (openSession c0) in
  ((length cs <= 15)%nat ->
     history s = cs /\ historyIdx s = Z.of_nat (length cs) - 1) /\
  ((16 <= length cs)%nat ->
     history s = firstn 15 cs ++ [List.last cs c0] /\ historyIdx s = 14).
Proof.
  induction cs as [|c cs IH] using rev_ind; cbv zeta.
  { split; [done|cbn; lia]. }
  cbv zeta in IH. destruct IH as [IHle IHge].
  rewrite commits_snoc, length_app, List.last_last. cbn [length].
  unfold commit, pushHistory; cbn [canvas history historyIdx].
  destruct (decide (length cs <= 15)%nat) as [Hle|Hgt].
  - destruct (IHle Hle) as [-> ->].
    replace (Z.of_nat (length cs) - 1 + 1) with (Z.of_nat (length cs)) by lia.
    rewrite slice0_nonneg, take_ge by lia.
    destruct (Z.ltb_spec 15 (Z.of_nat (length cs))); [lia|].
    split; intros Hlen.
    + split; [done|lia].
    + assert (length cs = 15%nat) as Hcs by lia.
      rewrite take_app_le, take_ge by lia. split; [done|lia].
  - destruct IHge as [-> ->]; [lia|].
    change (14 + 1) with (Z.of_nat 15). rewrite slice0_nonneg.
    assert (length (take 15 cs) = 15%nat) as Hlen15
      by (rewrite length_take; lia).
    rewrite take_app_le, (take_ge (take 15 cs)), Hlen15 by lia.
    cbn [Z.of_nat Pos.of_succ_nat Pos.succ Z.ltb Z.compare Pos.compare
         Pos.compare_cont].
    split; [lia|]. intros _. split; [|done].
    by rewrite take_app_le by lia.
Qed.

Lemma slice0_length {A} (e : Z) (l : list A) :
  0 <= e <= Z.of_nat (length l) -> length (slice0 e l) = Z.to_nat e.
Proof.
  intros He. rewrite <- (Z2Nat.id e) at 1 by lia.
  rewrite slice0_nonneg, length_take. lia.
Qed.

Lemma slice0_length_le {A} (e : Z) (l : list A) :
  (length (slice0 e l) <= length l)%nat.
Proof. unfold slice0. destruct (e <? 0); rewrite length_take; lia. Qed.

Lemma pushHistory_ok renderIdx s : history_ok s -> history_ok (pushHistory renderIdx s).
Proof.
  unfold history_ok, pushHistory. intros (Hidx & Hlen).
  cbn [history historyIdx].
  pose proof (slice0_length_le (renderIdx + 1) (history s)) as Hl.
  split; [lia|].
  destruct (Z.ltb_spec 15 (Z.of_nat (length (slice0 (renderIdx + 1) (history s)))));
    rewrite length_app; cbn [length]; [|lia].
  unfold shift. destruct (slice0 _ _); cbn [tl length] in *; lia.
Qed.

Lemma handleUndo_ok s : history_ok s -> history_ok (handleUndo s).
Proof.
  unfold history_ok, handleUndo. intros (Hidx & Hlen).
  destruct (Z.ltb_spec 0 (historyIdx s)); [|done].
  destruct (history s !! _); cbn [history historyIdx]; lia.
Qed.

Lemma run_session_ok ops : forall s, history_ok s -> history_ok (run_session ops s).
Proof.
  induction ops as [|op ops IH]; intros s Hs; [done|].
  apply IH. destruct op;
    [apply pushHistory_ok|by apply handleUndo_ok|apply pushHistory_ok];
    exact Hs.
Qed.

(** In every session, whatever the edits, the undos and the automatic
    mattings, the history holds at most sixteen snapshots and the index
    stays between -1 and 14. *)
Lemma session_history_bound ops c : history_ok (run_session ops (openSession c)).
Proof. apply run_session_ok. unfold history_ok; cbn. lia. Qed.

(** Undo with the index at 0 (or at its initial -1) changes nothing. *)
Lemma handleUndo_at_zero s : historyIdx s <= 0 -> handleUndo s = s.
Proof.
  intros Hidx. unfold handleUndo.
  by destruct (Z.ltb_spec 0 (historyIdx s)); [lia|].
Qed.

(** C2, what the code does: from the sixteenth committed edit on, a fresh
    session holds sixteen snapshots, not fifteen; they are the first fifteen
    edits ever made and the newest one, so no old snapshot is evicted, and
    the index stays at 14, one short of the newest. *)
Theorem pushHistory_retains_sixteen (c0 : ImageData) (cs : list ImageData) :
  (16 <= length cs)%nat ->
  let s := commits cs (openSession c0) in
  length (history s) = 16%nat /\
  history s = take 15 cs ++ [List.last cs c0] /\
  historyIdx s = 14.
Proof.
  intros Hlen. cbv zeta.
  destruct (commits_history c0 cs) as [_ Hge].
  destruct (Hge Hlen) as [-> ->].
  rewrite length_app, length_take. cbn [length]. repeat split. lia.
Qed.

Lemma pushHistory_retains_sixteen_witness :
  let s := commits sixteen_edits (openSession (grey 0)) in
  length (history s) = 16%nat /\
  history s = take 15 sixteen_edits ++ [List.last sixteen_edits (grey 0)] /\
  historyIdx s = 14.
Proof.
  apply (pushHistory_retains_sixteen (grey 0) sixteen_edits).
  cbn. lia.
Defined.

(** After the sixteenth edit the canvas shows edit 16 while the index
    points at edit 15; one undo therefore lands on edit 14. *)
Lemma handleUndo_after_sixteen :
  canvas (handleUndo (commits sixteen_edits (openSession (grey 0)))) = grey 14.
Proof. reflexivity. Qed.

(** ** The collection *)

Lemma Forall_map_id (P : StickerItem -> Prop) target f prev :
  (forall s, P s -> P (f s)) -> Forall P prev -> Forall P (map_id target f prev).
Proof.
  intros Hf. unfold map_id. induction 1 as [|s l Hs _ IH]; cbn; constructor; [|done].
  destruct (id_eqb _ _); auto.
Qed.

Lemma Forall_imap_all {A} (P : StickerItem -> Prop) (f : nat -> A -> StickerItem) l :
  (forall i x, P (f i x)) -> Forall P (imap f l).
Proof.
  intros Hf. apply Forall_lookup. intros i s.
  rewrite list_lookup_imap. destruct (l !! i); cbn; [|done].
  intros [= <-]. apply Hf.
Qed.

Lemma Forall_List_filter {A} (P : A -> Prop) (f : A -> bool) l :
  Forall P l -> Forall P (List.filter f l).
Proof.
  induction 1 as [|x l Hx _ IH]; cbn; [constructor|].
  destruct (f x); [by constructor|done].
Qed.

Lemma step_done_has_blob prev next :
  step prev next -> Forall done_has_blob prev -> Forall done_has_blob next.
Proof.
  intros Hstep Hprev. destruct Hstep.
  - unfold handleFileUpload. apply Forall_app. split; [done|].
    apply List.Forall_map, Forall_true. by intros [[? ?] ?].
  - unfold handleGridUpload. apply Forall_app. split; [done|].
    apply Forall_imap_all. intros i [[newId url] blob].
    destruct (_ && _); intros _; cbn; eauto.
  - unfold processOne_start. destruct (find _ _) as [found|]; [|done].
    apply Forall_map_id; [|done]. by intros s _.
  - apply Forall_map_id; [|done]. intros s _ _. cbn; eauto.
  - apply Forall_map_id; [|done]. by intros s _.
  - unfold setRole. apply List.Forall_map.
    eapply Forall_impl; [done|]. by intros s Hs; destruct role.
  - by apply Forall_List_filter.
  - apply Forall_map_id; [|done]. intros s _ _. cbn; eauto.
Qed.

Lemma reachable_done_has_blob stickers :
  reachable stickers -> Forall done_has_blob stickers.
Proof.
  unfold reachable. revert stickers.
  apply (rtc_ind_r (fun st => Forall done_has_blob st)); [constructor|].
  intros mid last _ Hstep IH. by eapply step_done_has_blob.
Qed.

Lemma step_pending_has_no_blob prev next :
  step prev next -> Forall pending_has_no_blob prev -> Forall pending_has_no_blob next.
Proof.
  intros Hstep Hprev. destruct Hstep.
  - unfold handleFileUpload. apply Forall_app. split; [done|].
    apply List.Forall_map, Forall_true. by intros [[? ?] ?].
  - unfold handleGridUpload. apply Forall_app. split; [done|].
    apply Forall_imap_all. intros i [[newId url] blob].
    by destruct (_ && _).
  - unfold processOne_start. destruct (find _ _) as [found|]; [|done].
    apply Forall_map_id; [|done]. by intros s _.
  - apply Forall_map_id; [|done]. by intros s _.
  - apply Forall_map_id; [|done]. by intros s _.
  - unfold setRole. apply List.Forall_map.
    eapply Forall_impl; [done|]. by intros s Hs; destruct role.
  - by apply Forall_List_filter.
  - apply Forall_map_id; [|done]. by intros s _.
Qed.

Lemma reachable_pending_has_no_blob stickers :
  reachable stickers -> Forall pending_has_no_blob stickers.
Proof.
  unfold reachable. revert stickers.
  apply (rtc_ind_r (fun st => Forall pending_has_no_blob st)); [constructor|].
  intros mid last _ Hstep IH. by eapply step_pending_has_no_blob.
Qed.

(** Whole runs of [processOne] and [processAll] are sequences of steps. *)
Lemma processOne_steps closure target o prev :
  rtc step prev (processOne closure target o prev).
Proof.
  unfold processOne.
  pose proof (step_process_start closure target prev) as Hstart.
  unfold processOne_start in Hstart.
  destruct (find _ closure) as [found|]; [|done].
  destruct o; [| |by apply rtc_once].
  all: eapply rtc_l; [exact Hstart|]; apply rtc_once; constructor.
Qed.

Lemma processAll_steps closure outcome prev :
  rtc step prev (processAll closure outcome prev).
Proof.
  unfold processAll. generalize closure at 2 as items. intros items. revert prev.
  induction items as [|s rest IH]; intros prev; cbn [processAll_from]; [done|].
  case_bool_decide; [|apply IH].
  destruct (processOne_returns _ _ _); [|apply processOne_steps].
  etrans; [apply processOne_steps|apply IH].
Qed.

Lemma reprocessing_state_reachable : reachable reprocessing_state.
Proof.
  unfold reachable, reprocessing_state, reprocessing_trace; cbv zeta.
  cbn [List.last].
  eapply rtc_r; [eapply rtc_r; [eapply rtc_r; [eapply rtc_r;
    [eapply rtc_once|]|]|]|]; constructor.
Qed.

(** C9, as amended: in every state the public operations can reach, every
    item whose status is ['done'] has a processed blob, and every item with
    a processed blob is ['done'], ['processing'] or ['error']: a pending
    item has none. *)
Theorem reachable_done_is_processed (stickers : list StickerItem) (s : StickerItem) :
  reachable stickers -> s ∈ stickers ->
  (status s = done -> is_Some (processedBlob s)) /\
  (is_Some (processedBlob s) ->
   status s = done \/ status s = processing \/ status s = error).
Proof.
  intros Hr Hin. split.
  - exact (proj1 (Forall_forall _ _) (reachable_done_has_blob _ Hr) s Hin).
  - intros [blob Hblob].
    pose proof (proj1 (Forall_forall _ _) (reachable_pending_has_no_blob _ Hr) s Hin)
      as Hpending.
    unfold pending_has_no_blob in Hpending.
    destruct (status s); auto. rewrite Hpending in Hblob by done. discriminate Hblob.
Qed.

Lemma reachable_done_is_processed_witness :
  let s := with_processed matted_blob "blob:a2"
             (with_status processing
                (createStickerItem "a" "blob:a" (Some (mkFile "a.png")) None)) in
  (status s = done -> is_Some (processedBlob s)) /\
  (is_Some (processedBlob s) ->
   status s = done \/ status s = processing \/ status s = error).
Proof.
  apply (reachable_done_is_processed reprocessing_state).
  - exact reprocessing_state_reachable.
  - vm_compute. apply list_elem_of_here.
Defined.

(** C9 as stated fails: an item that is processed again keeps its blob
    while its status is ['processing']. *)
Lemma processing_item_keeps_blob :
  ~ (forall stickers s, reachable stickers -> s ∈ stickers ->
       (is_Some (processedBlob s) <-> status s = done)).
Proof.
  intros Hclaim.
  pose (b := with_status processing
               (with_settings (mkSettings white 240)
                  (with_processed edited_blob "blob:b2"
                     (createStickerItem "b" "blob:b" (Some (mkFile "b.png")) None)))).
  assert (b ∈ reprocessing_state) as Hin.
  { vm_compute. apply list_elem_of_further, list_elem_of_here. }
  destruct (Hclaim _ b reprocessing_state_reachable Hin) as [Hdone _].
  discriminate Hdone. cbn. eauto.
Qed.

(** When that processing ends in the [catch], the item is in ['error'] and
    still has the blob saved from the editor. *)
Lemma error_item_keeps_blob :
  reachable reprocessing_failed /\
  exists s, s ∈ reprocessing_failed /\ status s = error /\
            processedBlob s = Some edited_blob.
Proof.
  split.
  - eapply rtc_r; [exact reprocessing_state_reachable|]. constructor.
  - eexists. split; [vm_compute; apply list_elem_of_further, list_elem_of_here|].
    by split.
Qed.

(** ** Export *)

Section ExportFacts.
Context {N : Type} `{Number N}.

Lemma doneStickers_of_In stickers s :
  In s (doneStickers_of stickers) <->
  In s stickers /\ status s = done /\ is_Some (processedBlob s).
Proof.
  unfold doneStickers_of. rewrite filter_In, andb_true_iff, bool_decide_eq_true.
  destruct (processedBlob s); intuition (eauto; try discriminate).
  by destruct (is_Some_None (A:=Blob)).
Qed.

Lemma doneStickers_of_none stickers :
  Forall (fun s => status s <> done) stickers -> doneStickers_of stickers = [].
Proof.
  induction 1 as [|s l Hs _ IH]; [done|].
  unfold doneStickers_of in *. cbn. rewrite IH.
  by rewrite bool_decide_eq_false_2.
Qed.

(** Every sticker image is read from an item that is ['done'] and has a
    blob, and that item is in the collection. *)
Lemma doneStickers_of_lookup stickers i s :
  doneStickers_of stickers !! i = Some s ->
  In s stickers /\ status s = done /\ is_Some (processedBlob s).
Proof.
  intros Hi. apply doneStickers_of_In, list_elem_of_In.
  by eapply list_elem_of_lookup_2.
Qed.

(** C8: with no ['done'] item, [handleExport] only raises the alert: no
    archive is saved and the collection, the exporting flag and the progress
    value are as before. *)
Theorem handleExport_no_done_items (st : AppState N) :
  Forall (fun s => status s <> done) (stickers st) ->
  handleExport (stickers st) (config st) = [Alert alert_no_items] /\
  archives (handleExport (stickers st) (config st)) = [] /\
  run st (handleExport (stickers st) (config st)) = st.
Proof.
  intros Hnone. unfold handleExport.
  rewrite (doneStickers_of_none _ Hnone). by destruct st.
Qed.

End ExportFacts.

Lemma handleExport_no_done_items_witness :
  handleExport (stickers pending_only) (config pending_only) = [Alert alert_no_items] /\
  archives (handleExport (stickers pending_only) (config pending_only)) = [] /\
  run pending_only (handleExport (stickers pending_only) (config pending_only))
    = pending_only.
Proof.
  apply (handleExport_no_done_items pending_only).
  cbn. repeat constructor; discriminate.
Defined.

(** The sequence names are two digits for every number a pack can hold. *)
Lemma sticker_filename_two_digits (i : Z) :
  0 <= i < 99 -> sticker_filename i = two_digit_name (i + 1).
Proof.
  intros Hi. rewrite <- (Z2Nat.id i) by lia.
  assert (Z.to_nat i < 99)%nat as Hn by lia.
  generalize dependent (Z.to_nat i). clear i Hi. intros n Hn.
  do 99 (destruct n as [|n]; [vm_compute; reflexivity|]). lia.
Qed.

Section ExportPack.
Context {N : Type} `{Number N}.

Lemma export_loop_ok doneStickers exportCount targetW targetH indices :
  forall folder,
  Forall (fun i => exists s, doneStickers !! i = Some s /\ is_Some (processedBlob s))
         indices ->
  exists entries,
    export_loop doneStickers exportCount targetW targetH indices folder
      = (loop_progress exportCount indices, Some (folder ++ entries)) /\
    Forall2 (sticker_entry doneStickers targetW targetH) indices entries.
Proof.
  induction indices as [|i rest IH]; intros folder Hall.
  { exists []. rewrite app_nil_r. by split; [|constructor]. }
  apply Forall_cons in Hall as [(s & Hi & [b Hb]) Hrest].
  destruct (IH (folder ++ [(sticker_filename (Z.of_nat i),
                            resizeToLineSpec b targetW targetH default_padding)])
              Hrest) as (entries & Hloop & Hentries).
  eexists (_ :: entries). split.
  - cbn [export_loop]. rewrite Hi. cbn. rewrite Hb. cbn. rewrite Hloop.
    cbn. by rewrite <- app_assoc.
  - constructor; [|done]. by exists s, b.
Qed.

Lemma doneStickers_of_indices stickers n :
  (n <= length (doneStickers_of stickers))%nat ->
  Forall (fun i => exists s, doneStickers_of stickers !! i = Some s /\
                             is_Some (processedBlob s)) (seq 0 n).
Proof.
  intros Hn. apply Forall_forall. intros i Hi%elem_of_seq.
  destruct (lookup_lt_is_Some_2 (doneStickers_of stickers) i) as [s Hs]; [lia|].
  exists s. split; [done|]. by apply doneStickers_of_lookup in Hs as (_ & _ & ?).
Qed.

Lemma exportCount_of_bounds stickers config :
  0 <= exportCount_of stickers config <= Z.of_nat (length (doneStickers_of stickers)) /\
  exportCount_of stickers config <= 40.
Proof. unfold exportCount_of. destruct (count config); cbn; lia. Qed.

(** When the resolved main and tab items carry a blob, the export saves one
    archive: the first [exportCount] done items under their sequence names
    at the sticker size, then [main.png] and [tab.png]. *)
Lemma handleExport_pack stickers config m mb t tb :
  doneStickers_of stickers <> [] ->
  mainItem_of stickers = Some m -> processedBlob m = Some mb ->
  tabItem_of stickers = Some t -> processedBlob t = Some tb ->
  let exportCount := exportCount_of stickers config in
  let targetW := num_of_Z (fst (sticker_size config)) in
  let targetH := num_of_Z (snd (sticker_size config)) in
  let mainSize := num_of_Z (main_size config) in
  exists entries,
    Forall2 (sticker_entry (doneStickers_of stickers) targetW targetH)
            (seq 0 (Z.to_nat exportCount)) entries /\
    handleExport stickers config =
      [SetIsExporting true; SetExportProgress (num_of_Z 0)] ++
      loop_progress exportCount (seq 0 (Z.to_nat exportCount)) ++
      [SetExportProgress (progress (exportCount + 1) exportCount);
       SetExportProgress (num_of_Z 100);
       SaveAs "line_sticker_pack"
         (entries ++
          [("main.png"%string, resizeToLineSpec mb mainSize mainSize default_padding);
           ("tab.png"%string,
            resizeToLineSpec tb (num_of_Z 96) (num_of_Z 74) default_padding)])
         (zip_filename exportCount);
       SetIsExporting false; SetExportProgress (num_of_Z 0)].
Proof.
  intros Hne Hm Hmb Ht Htb. cbv zeta.
  pose proof (exportCount_of_bounds stickers config) as [Hec _].
  destruct (export_loop_ok (doneStickers_of stickers) (exportCount_of stickers config)
              (num_of_Z (fst (sticker_size config)))
              (num_of_Z (snd (sticker_size config)))
              (seq 0 (Z.to_nat (exportCount_of stickers config))) [])
    as (entries & Hloop & Hentries).
  { apply doneStickers_of_indices. lia. }
  exists entries. split; [done|].
  unfold handleExport.
  destruct (doneStickers_of stickers) as [|d ds] eqn:Hd; [done|].
  cbn [length Nat.eqb]. f_equal.
  unfold export_body. rewrite Hd, Hloop, Hm, Ht. cbn. rewrite Hmb, Htb. cbn.
  by rewrite <- !app_assoc.
Qed.

(** Name, size and source of a sticker entry. *)
Lemma sticker_entry_name_size doneStickers targetW targetH i e :
  sticker_entry doneStickers targetW targetH i e -> (i < 99)%nat ->
  fst e = two_digit_name (Z.of_nat i + 1) /\
  canvas_w (snd e) = targetW /\ canvas_h (snd e) = targetH /\
  exists s, doneStickers !! i = Some s /\ processedBlob s = Some (drawn (snd e)).
Proof.
  intros (s & b & Hi & Hb & ->) Hlt. cbn.
  rewrite sticker_filename_two_digits by lia. eauto 10.
Qed.

End ExportPack.

(** Without a flagged item, the main and tab images come from the first
    done item. *)
Lemma mainItem_of_unflagged stickers m :
  find (fun s => truthy (isMain s)) stickers = None ->
  mainItem_of stickers = Some m ->
  status m = done /\ is_Some (processedBlob m).
Proof.
  unfold mainItem_of. intros -> Hm.
  by apply doneStickers_of_lookup in Hm as (_ & ? & ?).
Qed.

Lemma tabItem_of_unflagged stickers t :
  find (fun s => truthy (isTab s)) stickers = None ->
  tabItem_of stickers = Some t ->
  status t = done /\ is_Some (processedBlob t).
Proof.
  unfold tabItem_of. intros -> Ht.
  by apply doneStickers_of_lookup in Ht as (_ & ? & ?).
Qed.

Lemma flagged_unprocessed_reachable : reachable flagged_unprocessed.
Proof.
  unfold reachable, flagged_unprocessed, two_uploads.
  eapply rtc_r; [eapply rtc_r; [eapply rtc_once|]|]; constructor.
Qed.

(** C1, at the failing input: the collection is reachable and has a done
    item, so export runs to the resize steps; the main image it resolves is
    the flagged item, whose status is ['pending'] and whose blob is null. *)
Theorem handleExport_main_unprocessed :
  reachable flagged_unprocessed /\
  length (doneStickers_of flagged_unprocessed) = 1%nat /\
  exists m, mainItem_of flagged_unprocessed = Some m /\
            id m = "a"%string /\ status m = pending /\ processedBlob m = None.
Proof.
  split; [exact flagged_unprocessed_reachable|]. split; [reflexivity|].
  eexists. split; [reflexivity|]. by cbn.
Qed.

(** C6, at the failing input: with one done item the export saves no
    archive; the first sticker is resized, then resizing the unprocessed
    main image throws and the failure alert is raised. *)
Theorem handleExport_no_archive_despite_done_item :
  length (doneStickers_of flagged_unprocessed) = 1%nat /\
  handleExport flagged_unprocessed standard16 =
    [SetIsExporting true; SetExportProgress 0%float; SetExportProgress 33%float;
     Alert alert_export_failed;
     SetIsExporting false; SetExportProgress 0%float] /\
  archives (handleExport (N:=float) flagged_unprocessed standard16) = [].
Proof. split; [reflexivity|]. split; vm_compute; reflexivity. Qed.

(** ** Grid slicing *)

Lemma fold_left_push {A B} (f : B -> A) (l : list B) (acc : list A) :
  fold_left (fun blobs c => blobs ++ [f c]) l acc = acc ++ map f l.
Proof.
  revert acc. induction l as [|c l IH]; intros acc; cbn; [by rewrite app_nil_r|].
  by rewrite IH, <- app_assoc.
Qed.

Lemma fold_left_rows {A} (f : nat -> nat -> A) (columns rws : list nat) (acc : list A) :
  fold_left (fun blobs r => fold_left (fun blobs c => blobs ++ [f r c]) columns blobs)
            rws acc
  = acc ++ flat_map (fun r => map (f r) columns) rws.
Proof.
  revert acc. induction rws as [|r rws IH]; intros acc; cbn; [by rewrite app_nil_r|].
  by rewrite IH, fold_left_push, <- app_assoc.
Qed.

Lemma grid_length {A} (f : nat -> nat -> A) (nr nc : nat) :
  length (flat_map (fun r => map (f r) (seq 0 nc)) (seq 0 nr)) = (nr * nc)%nat.
Proof.
  induction nr as [|nr IH]; [done|].
  rewrite seq_S, flat_map_app, length_app, IH. cbn.
  rewrite app_nil_r, length_map, length_seq. lia.
Qed.


Section GridFacts.
Context {N : Type} `{Number N}.

Lemma cropImageGrid_flat image rows cols :
  cropImageGrid image rows cols =
    flat_map (fun r => map (grid_cell (num_of_Z (img_width image) / num_of_Z cols)%num
                                      (num_of_Z (img_height image) / num_of_Z rows)%num r)
                           (seq 0 (Z.to_nat cols)))
             (seq 0 (Z.to_nat rows)).
Proof. unfold cropImageGrid. by rewrite fold_left_rows. Qed.

End GridFacts.









(** ** Fit-to-box resize *)

Lemma Qfit_axis (src : Z) (usable scale : Q) :
  0 < src -> (scale <= usable / inject_Z src)%Q ->
  (inject_Z src * scale <= usable)%Q.
Proof.
  intros Hsrc Hscale.
  assert (0 < inject_Z src)%Q as Hpos
    by (change 0%Q with (inject_Z 0); rewrite <- Zlt_Qlt; lia).
  assert (usable == usable / inject_Z src * inject_Z src)%Q as Hu by (field; lra).
  set (q := (usable / inject_Z src)%Q) in *. clearbody q. nra.
Qed.

(** C5, as amended: the canvas is exactly [targetW x targetH]; the scale is
    the minimum of the two usable-to-source ratios, the drawn size is the
    source size times the scale and the offsets are half the leftover, in
    whatever arithmetic the numbers use; computed exactly, the drawn width
    and height do not exceed the usable width and height. *)
Theorem resizeToLineSpec_fit (blob : Blob) :
  0 < img_width (blob_image blob) -> 0 < img_height (blob_image blob) ->
  (forall (N : Type) (HN : Number N) (targetW targetH padding : N),
     let r := resizeToLineSpec blob targetW targetH padding in
     let srcW := num_of_Z (img_width (blob_image blob)) in
     let srcH := num_of_Z (img_height (blob_image blob)) in
     let usableW := (targetW - padding * num_of_Z 2)%num in
     let usableH := (targetH - padding * num_of_Z 2)%num in
     canvas_w r = targetW /\ canvas_h r = targetH /\
     res_scale r = num_min (usableW / srcW)%num (usableH / srcH)%num /\
     draw_w r = (srcW * res_scale r)%num /\
     draw_h r = (srcH * res_scale r)%num /\
     draw_x r = ((targetW - draw_w r) / num_of_Z 2)%num /\
     draw_y r = ((targetH - draw_h r) / num_of_Z 2)%num) /\
  (forall targetW targetH padding : Q,
     let r := resizeToLineSpec blob targetW targetH padding in
     (draw_w r <= targetW - 2 * padding)%Q /\
     (draw_h r <= targetH - 2 * padding)%Q).
Proof.
  intros Hw Hh. split; [by intros|].
  intros targetW targetH padding. cbn.
  assert (forall a, a - padding * 2 == a - 2 * padding)%Q as Hcomm by (intros; ring).
  rewrite <- !Hcomm.
  split; apply Qfit_axis; [done|apply Q.le_min_l|done|apply Q.le_min_r].
Qed.

Lemma resizeToLineSpec_fit_witness :
  (forall (N : Type) (HN : Number N) (targetW targetH padding : N),
     let r := resizeToLineSpec wide_source targetW targetH padding in
     let srcW := num_of_Z (img_width (blob_image wide_source)) in
     let srcH := num_of_Z (img_height (blob_image wide_source)) in
     let usableW := (targetW - padding * num_of_Z 2)%num in
     let usableH := (targetH - padding * num_of_Z 2)%num in
     canvas_w r = targetW /\ canvas_h r = targetH /\
     res_scale r = num_min (usableW / srcW)%num (usableH / srcH)%num /\
     draw_w r = (srcW * res_scale r)%num /\
     draw_h r = (srcH * res_scale r)%num /\
     draw_x r = ((targetW - draw_w r) / num_of_Z 2)%num /\
     draw_y r = ((targetH - draw_h r) / num_of_Z 2)%num) /\
  (forall targetW targetH padding : Q,
     let r := resizeToLineSpec wide_source targetW targetH padding in
     (draw_w r <= targetW - 2 * padding)%Q /\
     (draw_h r <= targetH - 2 * padding)%Q).
Proof.
  apply (resizeToLineSpec_fit wide_source); cbn; lia.
Defined.

(** C5 as stated fails in the arithmetic the program runs on: for a source
    77 wide and 60 high and a standard sticker (370 x 320, padding 10) the
    drawn width is [77 * (350 / 77)], which rounds to the double just above
    350 (350.00000000000006). *)
Lemma resizeToLineSpec_double_exceeds :
  let r := resizeToLineSpec wide_source 370%float 320%float 10%float in
  draw_w r = 0x1.5e00000000001p+8%float /\
  PrimFloat.ltb (370 - 2 * 10)%float (draw_w r) = true.
Proof. split; vm_compute; reflexivity. Qed.

(** * Further properties *)

(** ** Matting *)

Section MattingProperties.
Context {C : Canvas}.

(** On byte data, every pixel of the blob is a byte pixel and either has
    the alpha of the source pixel at its position or is transparent black; a
    pixel of the blob with alpha 0 has no colour left, whether the matting
    cleared it or the source pixel was transparent already. *)
Theorem removeBackground_only_clears_alpha (image : ImageData) (m : RemovalMode)
  (t : Z) (p : nat) (px : Pixel) :
  bytes (img_data image) ->
  pixel_at (img_data image) p = Some px ->
  exists q,
    pixel_at (img_data (blob_image (removeBackground image m t))) p = Some q /\
    byte_pixel q /\
    (snd q = snd px \/ q = transparent_black) /\
    (snd q = 0 -> q = transparent_black).
Proof.
  intros Hb Hp. rewrite removeBackground_pixel, Hp.
  eexists. split; [reflexivity|].
  pose proof (bytes_pixel_at _ _ _ Hb Hp) as Hpx.
  pose proof (requantise_bytes px Hpx) as Hheld.
  assert (byte_pixel transparent_black) as Htb by (cbn; lia).
  assert (forall y, byte_pixel y -> snd y = snd px ->
            byte_pixel (requantise y) /\
            (snd (requantise y) = snd px \/ requantise y = transparent_black) /\
            (snd (requantise y) = 0 -> requantise y = transparent_black)) as Hkeep.
  { intros y Hy Ha. split; [by apply requantise_bytes|].
    split; [left; by rewrite requantise_alpha|].
    rewrite requantise_alpha by done. by apply requantise_clear. }
  case_decide as Hm.
  - destruct (decide (matte_rule m t (requantise px))) as [Hrule|Hrule].
    + rewrite blob_pixel_cleared by done. split; [done|]. split; [by right|done].
    + rewrite matte_pixel_rule, decide_False by done.
      apply Hkeep; [done|by apply requantise_alpha].
  - by apply Hkeep.
Qed.

(** On a raster whose pixels are fully opaque or transparent black,
    matting again with the same mode and threshold changes nothing. *)
Theorem removeBackground_idempotent (image : ImageData) (m : RemovalMode) (t : Z) :
  bytes (img_data image) -> crisp (img_data image) ->
  removeBackground (blob_image (removeBackground image m t)) m t
  = removeBackground image m t.
Proof.
  intros Hb Hc. rewrite removeBackground_twice, removeBackground_crisp by done.
  do 2 f_equal. apply map_pixels_ext_in. intros p px _.
  apply decide_ext. tauto.
Qed.

(** On such a raster two ['white'] mattings in a row amount to one with the
    lower threshold, two ['black'] mattings to one with the higher. *)
Theorem removeBackground_thresholds_compose (image : ImageData) (t1 t2 : Z) :
  bytes (img_data image) -> crisp (img_data image) ->
  removeBackground (blob_image (removeBackground image white t1)) white t2
  = removeBackground image white (Z.min t1 t2) /\
  removeBackground (blob_image (removeBackground image black t1)) black t2
  = removeBackground image black (Z.max t1 t2).
Proof.
  intros Hb Hc. rewrite !removeBackground_twice, !removeBackground_crisp by done.
  split; do 2 f_equal; apply map_pixels_ext_in; intros p [[[r g] b] a] _;
    apply decide_ext; cbv beta iota delta [matte_rule]; lia.
Qed.

(** On such a raster the order of two mattings does not matter. *)
Theorem removeBackground_commute (image : ImageData) (m1 m2 : RemovalMode) (t1 t2 : Z) :
  bytes (img_data image) -> crisp (img_data image) ->
  removeBackground (blob_image (removeBackground image m1 t1)) m2 t2
  = removeBackground (blob_image (removeBackground image m2 t2)) m1 t1.
Proof.
  intros Hb Hc. rewrite !removeBackground_twice by done.
  do 2 f_equal. apply map_pixels_ext_in. intros p px _.
  apply decide_ext. tauto.
Qed.

(** On byte data, ['white'] with a negative threshold and ['black'] with a
    threshold above 255 turn every pixel into transparent black. *)
Theorem removeBackground_clears_everything (image : ImageData) (tw tb : Z)
  (p : nat) (px : Pixel) :
  bytes (img_data image) -> tw < 0 -> 255 < tb ->
  pixel_at (img_data image) p = Some px ->
  pixel_at (img_data (blob_image (removeBackground image white tw))) p
    = Some transparent_black /\
  pixel_at (img_data (blob_image (removeBackground image black tb))) p
    = Some transparent_black.
Proof.
  intros Hb Hw Hk Hp. pose proof (bytes_pixel_at _ _ _ Hb Hp) as Hpx.
  rewrite !removeBackground_pixel, Hp. cbn [fmap option_fmap option_map].
  rewrite !decide_True by done.
  rewrite !blob_pixel_cleared;
    [done|done|by apply requantise_all_black|done|by apply requantise_all_white].
Qed.

End MattingProperties.

Lemma two_tone_crisp : crisp (img_data two_tone_image).
Proof.
  intros p px. unfold two_tone_image; cbn [img_data]. destruct p as [|[|p]].
  - rewrite pixel_at_0. intros [= <-]. by left.
  - rewrite pixel_at_S, pixel_at_0. intros [= <-]. by left.
  - by rewrite !pixel_at_S, pixel_at_short by (cbn; lia).
Qed.

Lemma removeBackground_only_clears_alpha_witness :
  exists q,
    pixel_at (img_data (blob_image (removeBackground sample_image white 100))) 0
      = Some q /\
    byte_pixel q /\
    (snd q = snd (255, 255, 255, 255) \/ q = transparent_black) /\
    (snd q = 0 -> q = transparent_black).
Proof.
  apply (removeBackground_only_clears_alpha (C := nearest_canvas)
           sample_image white 100 0 (255, 255, 255, 255)).
  - apply bytes_sample. reflexivity.
  - reflexivity.
Defined.

Lemma removeBackground_idempotent_witness :
  removeBackground (blob_image (removeBackground two_tone_image white 240)) white 240
  = removeBackground two_tone_image white 240.
Proof.
  apply (removeBackground_idempotent (C := nearest_canvas) two_tone_image white 240).
  - apply bytes_sample. reflexivity.
  - exact two_tone_crisp.
Defined.

Lemma removeBackground_thresholds_compose_witness :
  removeBackground (blob_image (removeBackground two_tone_image white 240)) white 5
  = removeBackground two_tone_image white (Z.min 240 5) /\
  removeBackground (blob_image (removeBackground two_tone_image black 240)) black 5
  = removeBackground two_tone_image black (Z.max 240 5).
Proof.
  apply (removeBackground_thresholds_compose (C := nearest_canvas) two_tone_image 240 5).
  - apply bytes_sample. reflexivity.
  - exact two_tone_crisp.
Defined.

Lemma removeBackground_commute_witness :
  removeBackground (blob_image (removeBackground two_tone_image white 240)) black 40
  = removeBackground (blob_image (removeBackground two_tone_image black 40)) white 240.
Proof.
  apply (removeBackground_commute (C := nearest_canvas) two_tone_image white black 240 40).
  - apply bytes_sample. reflexivity.
  - exact two_tone_crisp.
Defined.

Lemma removeBackground_clears_everything_witness :
  pixel_at (img_data (blob_image (removeBackground sample_image white (-1)))) 0
    = Some transparent_black /\
  pixel_at (img_data (blob_image (removeBackground sample_image black 256))) 0
    = Some transparent_black.
Proof.
  apply (removeBackground_clears_everything (C := nearest_canvas)
           sample_image (-1) 256 0 (255, 255, 255, 255)).
  - apply bytes_sample. reflexivity.
  - lia.
  - lia.
  - reflexivity.
Defined.


(** ** Grid suggestion and resize geometry *)

(** Choosing a pack size keeps the pack type and suggests a grid that
    [cropImageGrid] cuts into exactly that many cells, whatever the image
    and the grid before. *)
Theorem handleConfigChange_grid_matches_count (newCount : PackCount)
  (st : StickerPackConfig * GridConfig) (image : ImageData) :
  let st' := handleConfigChange newCount st in
  count (fst st') = newCount /\
  type (fst st') = type (fst st) /\
  grid_rows (snd st') * grid_cols (snd st') = count_value newCount /\
  forall (N : Type) (HN : Number N),
    Z.of_nat (length (cropImageGrid (N:=N) image (grid_rows (snd st'))
                        (grid_cols (snd st'))))
    = count_value newCount.
Proof.
  cbv zeta. repeat split; [by destruct newCount|].
  intros N HN. rewrite cropImageGrid_flat, grid_length.
  by destruct newCount.
Qed.

Lemma inject_Z_pos (z : Z) : 0 < z -> (0 < inject_Z z)%Q.
Proof. intros Hz. change 0%Q with (inject_Z 0). rewrite <- Zlt_Qlt. lia. Qed.

Lemma Qdiv_mul_cancel (u s : Q) : (0 < s)%Q -> (s * (u / s) == u)%Q.
Proof. intros Hs. field. lra. Qed.

(** In exact arithmetic the resize keeps the aspect ratio of the source and
    fills the usable box in at least one direction. *)
Theorem resizeToLineSpec_aspect_and_touch (blob : Blob) (targetW targetH padding : Q) :
  0 < img_width (blob_image blob) -> 0 < img_height (blob_image blob) ->
  let r := resizeToLineSpec blob targetW targetH padding in
  (draw_w r * inject_Z (img_height (blob_image blob))
   == draw_h r * inject_Z (img_width (blob_image blob)))%Q /\
  ((draw_w r == targetW - padding * 2)%Q \/ (draw_h r == targetH - padding * 2)%Q).
Proof.
  intros Hw%inject_Z_pos Hh%inject_Z_pos. cbn. split; [ring|].
  destruct (Q.min_dec ((targetW - padding * 2) / inject_Z (img_width (blob_image blob)))
                      ((targetH - padding * 2) / inject_Z (img_height (blob_image blob))))
    as [Hmin|Hmin]; rewrite Hmin; [left|right]; by apply Qdiv_mul_cancel.
Qed.

Lemma resizeToLineSpec_aspect_and_touch_witness :
  let r := resizeToLineSpec wide_source 370%Q 320%Q 10%Q in
  (draw_w r * inject_Z (img_height (blob_image wide_source))
   == draw_h r * inject_Z (img_width (blob_image wide_source)))%Q /\
  ((draw_w r == 370 - 10 * 2)%Q \/ (draw_h r == 320 - 10 * 2)%Q).
Proof.
  apply (resizeToLineSpec_aspect_and_touch wide_source 370%Q 320%Q 10%Q); cbn; lia.
Defined.

(** In exact arithmetic the drawn content is centred: the left and right
    margins are equal, so are the top and bottom ones, and each is at least
    the padding. *)
Theorem resizeToLineSpec_margins (blob : Blob) (targetW targetH padding : Q) :
  0 < img_width (blob_image blob) -> 0 < img_height (blob_image blob) ->
  let r := resizeToLineSpec blob targetW targetH padding in
  (padding <= draw_x r)%Q /\ (padding <= draw_y r)%Q /\
  (draw_x r + draw_w r + draw_x r == targetW)%Q /\
  (draw_y r + draw_h r + draw_y r == targetH)%Q.
Proof.
  intros Hw Hh.
  pose proof (Qfit_axis _ (targetW - padding * 2) _ Hw (Q.le_min_l _
                ((targetH - padding * 2) / inject_Z (img_height (blob_image blob))))) as HW.
  pose proof (Qfit_axis _ (targetH - padding * 2) _ Hh (Q.le_min_r
                ((targetW - padding * 2) / inject_Z (img_width (blob_image blob))) _)) as HH.
  cbn.
  set (scale := Qmin _ _) in *.
  set (dw := (inject_Z (img_width (blob_image blob)) * scale)%Q) in *.
  set (dh := (inject_Z (img_height (blob_image blob)) * scale)%Q) in *.
  clearbody dw dh. change (inject_Z 2) with 2%Q.
  repeat split.
  - apply Qle_shift_div_l; lra.
  - apply Qle_shift_div_l; lra.
  - field.
  - field.
Qed.

Lemma resizeToLineSpec_margins_witness :
  let r := resizeToLineSpec wide_source 370%Q 320%Q 10%Q in
  (10 <= draw_x r)%Q /\ (10 <= draw_y r)%Q /\
  (draw_x r + draw_w r + draw_x r == 370)%Q /\
  (draw_y r + draw_h r + draw_y r == 320)%Q.
Proof.
  apply (resizeToLineSpec_margins wide_source 370%Q 320%Q 10%Q); cbn; lia.
Defined.

(** In exact arithmetic the resize enlarges as well as shrinks: the scale
    is at least 1 exactly when the source fits the usable box. *)
Theorem resizeToLineSpec_enlarges_small_sources (blob : Blob)
  (targetW targetH padding : Q) :
  0 < img_width (blob_image blob) -> 0 < img_height (blob_image blob) ->
  let r := resizeToLineSpec blob targetW targetH padding in
  (1 <= res_scale r)%Q <->
  (inject_Z (img_width (blob_image blob)) <= targetW - padding * 2)%Q /\
  (inject_Z (img_height (blob_image blob)) <= targetH - padding * 2)%Q.
Proof.
  intros Hw%inject_Z_pos Hh%inject_Z_pos. cbn.
  change (inject_Z 2) with 2%Q.
  rewrite Q.min_glb_iff.
  pose proof (Qdiv_mul_cancel (targetW - padding * 2) _ Hw) as HqW.
  pose proof (Qdiv_mul_cancel (targetH - padding * 2) _ Hh) as HqH.
  set (qW := ((targetW - padding * 2) / _)%Q) in *.
  set (qH := ((targetH - padding * 2) / _)%Q) in *.
  clearbody qW qH.
  split; intros [H1 H2]; split; nra.
Qed.

Lemma resizeToLineSpec_enlarges_small_sources_witness :
  let r := resizeToLineSpec wide_source 370%Q 320%Q 10%Q in
  (1 <= res_scale r)%Q <->
  (inject_Z (img_width (blob_image wide_source)) <= 370 - 10 * 2)%Q /\
  (inject_Z (img_height (blob_image wide_source)) <= 320 - 10 * 2)%Q.
Proof.
  apply (resizeToLineSpec_enlarges_small_sources wide_source 370%Q 320%Q 10%Q);
    cbn; lia.
Defined.


(** ** Undo and zoom *)

Lemma canvas_commit c s : canvas (commit c s) = c.
Proof. reflexivity. Qed.

Lemma handleUndo_step s i x :
  historyIdx s = Z.of_nat (S i) -> history s !! i = Some x ->
  handleUndo s = mkSession x (history s) (Z.of_nat i).
Proof.
  intros Hidx Hx. unfold handleUndo. rewrite Hidx.
  destruct (Z.ltb_spec 0 (Z.of_nat (S i))); [|lia].
  replace (Z.to_nat (Z.of_nat (S i) - 1)) with i by lia. rewrite Hx.
  f_equal. lia.
Qed.

(** With at most fifteen edits, each committed by the [pushHistory] of the
    latest render, [k] undos show the edit [k] places before the newest one,
    stopping at the first edit; the history itself is not changed by
    undoing. *)
Theorem undos_walk_back (c0 : ImageData) (cs : list ImageData) (k : nat) :
  (1 <= length cs <= 15)%nat ->
  let s := undos k (commits cs (openSession c0)) in
  let i := (length cs - 1 - Nat.min k (length cs - 1))%nat in
  cs !! i = Some (canvas s) /\ historyIdx s = Z.of_nat i /\ history s = cs.
Proof.
  intros Hlen. cbv zeta.
  destruct (commits_history c0 cs) as [Hle _]. destruct (Hle ltac:(lia)) as [Hh Hi].
  induction k as [|k IH].
  - change (undos 0 ?s) with s. rewrite Nat.min_0_l, Nat.sub_0_r.
    split; [|split; [rewrite Hi; lia|done]].
    destruct cs as [|c cs] using rev_ind; [cbn in Hlen; lia|].
    rewrite commits_snoc, canvas_commit, length_app. cbn [length].
    rewrite lookup_app_r by lia. by replace (length cs + 1 - 1 - length cs)%nat with 0%nat by lia.
  - destruct IH as (Hc & Hidx & Hhist).
    change (undos (S k) ?x) with (handleUndo (undos k x)).
    set (s := undos k (commits cs (openSession c0))) in *.
    destruct (decide (k < length cs - 1)%nat) as [Hk|Hk].
    + rewrite Nat.min_l in Hc, Hidx by lia. rewrite Nat.min_l by lia.
      assert (is_Some (cs !! (length cs - 1 - S k)%nat)) as [x Hx]
        by (apply lookup_lt_is_Some_2; lia).
      rewrite (handleUndo_step s (length cs - 1 - S k) x).
      * cbn. by rewrite Hx, Hhist.
      * rewrite Hidx. lia.
      * by rewrite Hhist.
    + rewrite Nat.min_r in Hc, Hidx by lia. rewrite Nat.min_r by lia.
      rewrite handleUndo_at_zero by lia. done.
Qed.

Lemma undos_walk_back_witness :
  let cs := take 3 sixteen_edits in
  let s := undos 1 (commits cs (openSession (grey 0))) in
  let i := (length cs - 1 - Nat.min 1 (length cs - 1))%nat in
  cs !! i = Some (canvas s) /\ historyIdx s = Z.of_nat i /\ history s = cs.
Proof.
  apply (undos_walk_back (grey 0) (take 3 sixteen_edits) 1). cbn. lia.
Defined.

(** In every session, whatever the edits, undos and automatic mattings
    before it, an edit committed by the [pushHistory] of the latest render
    keeps the snapshots up to the current index, first one included, drops
    those after it and appends the new raster. *)
Theorem commit_truncates_redo (ops : list SessionOp) (c0 c : ImageData) :
  let s := run_session ops (openSession c0) in
  history (commit c s)
  = take (Z.to_nat (historyIdx s + 1)) (history s) ++ [c].
Proof.
  cbv zeta. destruct (session_history_bound ops c0) as (Hidx & Hlen).
  set (s := run_session ops (openSession c0)) in *.
  unfold commit, pushHistory. cbn [canvas history historyIdx].
  assert (slice0 (historyIdx s + 1) (history s)
          = take (Z.to_nat (historyIdx s + 1)) (history s)) as ->.
  { rewrite <- (Z2Nat.id (historyIdx s + 1)) at 1 by lia. apply slice0_nonneg. }
  destruct (Z.ltb_spec 15 (Z.of_nat (length (take (Z.to_nat (historyIdx s + 1)) (history s)))));
    [rewrite length_take in *; lia|done].
Qed.

(** Two automatic mattings called in the same render, with the index at
    [k], and loaded one after the other: the second cuts the history after
    [k] as well, so the snapshot of the first is lost, while the index has
    moved twice and now points past the last snapshot; the next undo puts
    the raster of the second matting back on the canvas. *)
Theorem applyAuto_overlap_loses_snapshot (s : EditSession) (d1 d2 : ImageData) :
  -1 <= historyIdx s <= 12 -> historyIdx s < Z.of_nat (length (history s)) ->
  let k := historyIdx s in
  let s' := applyAuto_loaded k d2 (applyAuto_loaded k d1 s) in
  history s' = take (Z.to_nat (k + 1)) (history s) ++ [d2] /\
  historyIdx s' = k + 2 /\
  historyIdx s' = Z.of_nat (length (history s')) /\
  canvas s' = d2 /\
  canvas (handleUndo s') = d2 /\
  historyIdx (handleUndo s') = k + 1.
Proof.
  intros Hidx Hin. cbv zeta. set (k := historyIdx s) in *.
  set (n := Z.to_nat (k + 1)).
  assert (Z.of_nat n = k + 1) as Hn by (unfold n; lia).
  assert (length (take n (history s)) = n) as Hlen by (rewrite length_take; lia).
  assert (forall d, applyAuto_loaded k d s
                    = mkSession d (take n (history s) ++ [d]) (k + 1)) as Hfirst.
  { intros d. unfold applyAuto_loaded, pushHistory. cbn [canvas history historyIdx].
    rewrite <- Hn, slice0_nonneg, Hlen.
    destruct (Z.ltb_spec 15 (Z.of_nat n)); [lia|]. f_equal. fold k. lia. }
  assert (applyAuto_loaded k d2 (applyAuto_loaded k d1 s)
          = mkSession d2 (take n (history s) ++ [d2]) (k + 2)) as ->.
  { rewrite Hfirst. unfold applyAuto_loaded, pushHistory.
    cbn [canvas history historyIdx].
    rewrite <- Hn, slice0_nonneg, take_app_le, take_take, Nat.min_id, Hlen by lia.
    destruct (Z.ltb_spec 15 (Z.of_nat n)); [lia|]. f_equal. lia. }
  cbn [canvas history historyIdx].
  assert (handleUndo (mkSession d2 (take n (history s) ++ [d2]) (k + 2))
          = mkSession d2 (take n (history s) ++ [d2]) (k + 1)) as ->.
  { unfold handleUndo. cbn [canvas history historyIdx].
    destruct (Z.ltb_spec 0 (k + 2)); [|lia].
    replace (Z.to_nat (k + 2 - 1)) with n by lia.
    rewrite (list_lookup_middle _ [] d2 n) by done. f_equal. lia. }
  cbn [canvas history historyIdx].
  rewrite length_app, Hlen. cbn [length]. repeat split. lia.
Qed.

Lemma applyAuto_overlap_loses_snapshot_witness :
  let s := commit (grey 5) (openSession (grey 5)) in
  let k := historyIdx s in
  let s' := applyAuto_loaded k (grey 2) (applyAuto_loaded k (grey 1) s) in
  history s' = take (Z.to_nat (k + 1)) (history s) ++ [grey 2] /\
  historyIdx s' = k + 2 /\
  historyIdx s' = Z.of_nat (length (history s')) /\
  canvas s' = grey 2 /\
  canvas (handleUndo s') = grey 2 /\
  historyIdx (handleUndo s') = k + 1.
Proof.
  apply (applyAuto_overlap_loses_snapshot (commit (grey 5) (openSession (grey 5)))
           (grey 1) (grey 2)).
  - split; vm_compute; discriminate.
  - vm_compute. reflexivity.
Defined.

(** A wheel event only counts through the sign of [deltaY]. *)
Lemma handleWheel_sign d s :
  handleWheel d s = handleWheel (if PrimFloat.ltb d 0 then (-1)%float else 1%float) s.
Proof. unfold handleWheel. by destruct (PrimFloat.ltb d 0). Qed.

Lemma float_mem_In x l : float_mem x l = true <-> In x l.
Proof.
  unfold float_mem. rewrite existsb_exists. split.
  - intros (y & Hy & Heq). apply FloatAxioms.Leibniz.eqb_spec in Heq. by subst.
  - intros Hx. exists x. split; [done|]. by apply FloatAxioms.Leibniz.eqb_spec.
Qed.

Lemma zoom_levels_closed :
  forallb (fun s => float_mem (handleWheel (-1)%float s) zoom_levels
                    && float_mem (handleWheel 1%float s) zoom_levels
                    && PrimFloat.leb tenth s && PrimFloat.leb s 10%float)
          zoom_levels = true.
Proof. vm_compute. reflexivity. Qed.

Lemma zoom_levels_step d s : In s zoom_levels -> In (handleWheel d s) zoom_levels.
Proof.
  intros Hs.
  pose proof (proj1 (forallb_forall _ zoom_levels) zoom_levels_closed s Hs) as Hc.
  cbv beta in Hc.
  apply andb_prop in Hc as [Hc _]. apply andb_prop in Hc as [Hc _].
  apply andb_prop in Hc as [Hup Hdown].
  rewrite handleWheel_sign.
  destruct (PrimFloat.ltb d 0).
  - exact (proj1 (float_mem_In _ _) Hup).
  - exact (proj1 (float_mem_In _ _) Hdown).
Qed.

Lemma zoom_in_levels deltas : In (zoom deltas) zoom_levels.
Proof.
  unfold zoom.
  assert (In 1%float zoom_levels) as H1.
  { apply (proj1 (float_mem_In _ _)). vm_compute. reflexivity. }
  revert H1. generalize 1%float as s.
  induction deltas as [|d deltas IH]; intros s Hs; [assumption|].
  cbn [fold_left]. apply IH, zoom_levels_step, Hs.
Qed.

(** Whatever the wheel events, the zoom scale computed in double precision
    stays between 0.1 and 10 (and is never NaN). *)
Theorem zoom_stays_clamped (deltas : list float) :
  PrimFloat.leb tenth (zoom deltas) = true /\
  PrimFloat.leb (zoom deltas) 10%float = true.
Proof.
  pose proof (proj1 (forallb_forall _ zoom_levels) zoom_levels_closed _
                (zoom_in_levels deltas)) as Hc.
  cbv beta in Hc.
  apply andb_prop in Hc as [Hc Hhi]. apply andb_prop in Hc as [_ Hlo].
  split; assumption.
Qed.


(** ** Pointer gestures *)

Section GestureFacts.
Context {N : Type} `{Number N}.
Variable erase_disc : N -> N -> N -> ImageData -> ImageData.
Variable restore_disc : N -> N -> N -> ImageData -> ImageData -> ImageData.

Abbreviation move_with := (handleMove erase_disc restore_disc).
Abbreviation stroke_with := (stroke erase_disc restore_disc).

(** While panning, moves leave everything but the pan offset and the last
    pointer position alone. *)
Lemma panning_moves moves : forall ed : Editor N,
  ed_isPanning ed = true ->
  let ed' := fold_left (fun ed e => move_with e ed) moves ed in
  ed_session ed' = ed_session ed /\ ed_isPanning ed' = true /\
  ed_isDrawing ed' = ed_isDrawing ed.
Proof.
  induction moves as [|e moves IH]; intros ed Hp; cbn [fold_left]; [done|].
  assert (ed_isPanning (move_with e ed) = true) as Hp'
    by (unfold handleMove; by rewrite Hp).
  destruct (IH _ Hp') as (-> & -> & ->).
  unfold handleMove. by rewrite Hp.
Qed.

(** While drawing, every move is one more stroke on the canvas; pan,
    history and index stay. *)
Lemma drawing_moves moves : forall ed : Editor N,
  ed_isPanning ed = false -> ed_isDrawing ed = true ->
  let ed' := fold_left (fun ed e => move_with e ed) moves ed in
  ed_session ed'
  = with_canvas (fold_left (fun c e => stroke_with ed e c) moves (canvas (ed_session ed)))
      (ed_session ed) /\
  ed_isPanning ed' = false /\ ed_isDrawing ed' = true /\ ed_pan ed' = ed_pan ed.
Proof.
  induction moves as [|e moves IH]; intros ed Hp Hd; cbn [fold_left].
  { by destruct (ed_session ed). }
  set (x := move_with e ed).
  assert (x = mkEditor (with_canvas (stroke_with ed e (canvas (ed_session ed)))
                          (ed_session ed))
                (ed_original ed) (ed_tool ed) (ed_brushSize ed) (ed_scale ed)
                (ed_pan ed) (ed_isDrawing ed) (ed_isPanning ed) (ed_lastMousePos ed))
    as Hx by (subst x; unfold handleMove, draw; by rewrite Hp, Hd).
  destruct (IH x) as (Hs & Hp' & Hd' & Hpan); [by rewrite Hx|by rewrite Hx|].
  rewrite Hs, Hp', Hd', Hpan, Hx. done.
Qed.

(** A pan gesture (move tool, middle button or Alt) never touches the
    raster or the undo history, whatever the pointer does before release. *)
Theorem pan_gesture_keeps_raster (e0 : Pointer N) (moves : list (Pointer N))
  (ed : Editor N) :
  starts_pan e0 ed = true -> ed_isDrawing ed = false ->
  let ed' := gesture erase_disc restore_disc e0 moves ed in
  ed_session ed' = ed_session ed /\
  ed_isDrawing ed' = false /\ ed_isPanning ed' = false.
Proof.
  intros Hpan Hidle. cbv zeta. unfold gesture, handlePointerDown.
  rewrite Hpan.
  match goal with |- context [fold_left _ moves ?x] =>
    destruct (panning_moves moves x eq_refl) as (Hs & _ & Hd) end.
  unfold handleUp. cbn [ed_session ed_isDrawing ed_isPanning] in *.
  by rewrite Hs, Hd, Hidle.
Qed.

(** A brush gesture paints one stroke per pointer event and records exactly
    one snapshot, on release; the pan offset stays. *)
Theorem brush_gesture_commits_once (e0 : Pointer N) (moves : list (Pointer N))
  (ed : Editor N) :
  starts_pan e0 ed = false -> ed_isPanning ed = false ->
  let ed' := gesture erase_disc restore_disc e0 moves ed in
  ed_session ed'
  = commit (fold_left (fun c e => stroke_with ed e c) (e0 :: moves)
              (canvas (ed_session ed)))
      (ed_session ed) /\
  ed_pan ed' = ed_pan ed /\
  ed_isDrawing ed' = false /\ ed_isPanning ed' = false.
Proof.
  intros Hpan Hp. cbv zeta. unfold gesture, handlePointerDown.
  rewrite Hpan.
  set (x := draw erase_disc restore_disc e0 true _).
  destruct (drawing_moves moves x) as (Hs & _ & Hd & Hpn); [exact Hp|reflexivity|].
  unfold handleUp. cbn [ed_session ed_isDrawing ed_isPanning ed_pan].
  rewrite Hs, Hd, Hpn. repeat split.
Qed.

End GestureFacts.


Lemma pan_gesture_keeps_raster_witness :
  let ed' := gesture sample_erase sample_restore (middle_click 3 4)
               [left_click 5 6; left_click 9 9] sample_editor in
  ed_session ed' = ed_session sample_editor /\
  ed_isDrawing ed' = false /\ ed_isPanning ed' = false.
Proof.
  apply (pan_gesture_keeps_raster sample_erase sample_restore (middle_click 3 4)
           [left_click 5 6; left_click 9 9] sample_editor); reflexivity.
Defined.

Lemma brush_gesture_commits_once_witness :
  let ed' := gesture sample_erase sample_restore (left_click 3 4)
               [left_click 5 6] sample_editor in
  ed_session ed'
  = commit (fold_left (fun c e => stroke sample_erase sample_restore sample_editor e c)
              [left_click 3 4; left_click 5 6] (canvas (ed_session sample_editor)))
      (ed_session sample_editor) /\
  ed_pan ed' = ed_pan sample_editor /\
  ed_isDrawing ed' = false /\ ed_isPanning ed' = false.
Proof.
  apply (brush_gesture_commits_once sample_erase sample_restore (left_click 3 4)
           [left_click 5 6] sample_editor); reflexivity.
Defined.

Lemma last_nonempty_default {A} (x : A) (l : list A) (d d' : A) :
  List.last (x :: l) d = List.last (x :: l) d'.
Proof.
  revert x. induction l as [|y l IH]; intros x; [done|].
  change (List.last (y :: l) d = List.last (y :: l) d'). apply IH.
Qed.

Lemma last_cons_head {A} (x : A) (l : list A) (d : A) :
  List.last (x :: l) d = List.last l x.
Proof. destruct l as [|y l]; [done|]. apply (last_nonempty_default y l). Qed.

Section PanOffset.
Variable erase_disc : Q -> Q -> Q -> ImageData -> ImageData.
Variable restore_disc : Q -> Q -> Q -> ImageData -> ImageData -> ImageData.

Lemma panning_offset moves : forall (ed : Editor Q) (e0 : Pointer Q),
  ed_isPanning ed = true ->
  ed_lastMousePos ed = (clientX e0, clientY e0) ->
  let ed' := fold_left (fun ed e => handleMove erase_disc restore_disc e ed) moves ed in
  let final := List.last moves e0 in
  (fst (ed_pan ed') == fst (ed_pan ed) + (clientX final - clientX e0))%Q /\
  (snd (ed_pan ed') == snd (ed_pan ed) + (clientY final - clientY e0))%Q.
Proof.
  induction moves as [|e moves IH]; intros ed e0 Hp Hlast; cbn [fold_left].
  { cbn. split; ring. }
  set (x := handleMove erase_disc restore_disc e ed).
  assert (x = mkEditor (ed_session ed) (ed_original ed) (ed_tool ed) (ed_brushSize ed)
                (ed_scale ed)
                ((fst (ed_pan ed) + (clientX e - clientX e0))%Q,
                 (snd (ed_pan ed) + (clientY e - clientY e0))%Q)
                (ed_isDrawing ed) (ed_isPanning ed) (clientX e, clientY e)) as Hx
    by (subst x; unfold handleMove; by rewrite Hp, Hlast).
  destruct (IH x e) as [HX HY]; [by rewrite Hx|by rewrite Hx|].
  cbv zeta in HX, HY.
  rewrite last_cons_head.
  rewrite HX, HY, Hx. cbn. split; ring.
Qed.

(** Computed exactly, a pan gesture moves the pan offset by the displacement
    of the pointer between press and release, however it got there. *)
Theorem pan_gesture_offset (e0 : Pointer Q) (moves : list (Pointer Q)) (ed : Editor Q) :
  starts_pan e0 ed = true ->
  let ed' := gesture erase_disc restore_disc e0 moves ed in
  let final := List.last moves e0 in
  (fst (ed_pan ed') == fst (ed_pan ed) + (clientX final - clientX e0))%Q /\
  (snd (ed_pan ed') == snd (ed_pan ed) + (clientY final - clientY e0))%Q.
Proof.
  intros Hpan. cbv zeta. unfold gesture, handlePointerDown. rewrite Hpan.
  match goal with |- context [fold_left _ moves ?x] =>
    destruct (panning_offset moves x e0 eq_refl eq_refl) as [HX HY] end.
  exact (conj HX HY).
Qed.

End PanOffset.

Lemma pan_gesture_offset_witness :
  let ed' := gesture sample_erase sample_restore (middle_click 3 4)
               [left_click 5 6; left_click 9 9] sample_editor in
  let final := List.last [left_click 5 6; left_click 9 9] (middle_click 3 4) in
  (fst (ed_pan ed') == fst (ed_pan sample_editor) + (clientX final - clientX (middle_click 3 4)))%Q /\
  (snd (ed_pan ed') == snd (ed_pan sample_editor) + (clientY final - clientY (middle_click 3 4)))%Q.
Proof.
  apply (pan_gesture_offset sample_erase sample_restore (middle_click 3 4)
           [left_click 5 6; left_click 9 9] sample_editor); reflexivity.
Defined.


(** ** The collection: whole runs *)

Lemma finish_id o s : id (finish o s) = id s.
Proof. by destruct o. Qed.

Lemma finish_twice o s : finish o (finish o s) = finish o s.
Proof. by destruct o. Qed.

Lemma finish_processing o s : finish o (with_status processing s) = finish o s.
Proof. by destruct o. Qed.

Lemma find_id_present (closure : list StickerItem) (s : StickerItem) :
  In s closure -> find (fun x => id_eqb (id x) (id s)) closure <> None.
Proof.
  intros Hin Hnone. pose proof (find_none _ _ Hnone s Hin) as Hf. cbn in Hf.
  unfold id_eqb in Hf. by rewrite bool_decide_eq_true_2 in Hf.
Qed.

(** [processOne] on an identifier the closed-over list knows. *)
Lemma processOne_map closure target o prev :
  find (fun x => id_eqb (id x) target) closure <> None ->
  processOne closure target o prev
  = map (fun x => if id_eqb (id x) target then finish o x else x) prev.
Proof.
  intros Hfind. unfold processOne.
  destruct (find _ closure) as [found|]; [|done].
  unfold processOne_success, processOne_catch, map_id.
  destruct o; rewrite ?map_map; apply map_ext; intros x;
    destruct (id_eqb (id x) target) eqn:Hx; cbn; by rewrite ?Hx.
Qed.

Lemma processOne_returns_known closure target o :
  find (fun x => id_eqb (id x) target) closure <> None ->
  processOne_returns closure target o = settles o.
Proof. intros Hfind. unfold processOne_returns. by destruct (find _ closure). Qed.

Lemma processAll_from_map closure outcome items : forall prev,
  incl items closure ->
  processAll_from closure items outcome prev
  = map (fun x => if pending_id (visited outcome items) (id x)
                  then finish (outcome (id x)) x else x) prev.
Proof.
  induction items as [|s rest IH]; intros prev Hincl;
    cbn [processAll_from visited].
  { cbn. by rewrite List.map_id. }
  assert (find (fun x => id_eqb (id x) (id s)) closure <> None) as Hfind
    by (apply find_id_present, Hincl; by left).
  assert (incl rest closure) as Hrest by (intros y Hy; apply Hincl; by right).
  case_bool_decide as Hs; cbn [andb].
  - rewrite processOne_returns_known, processOne_map by done.
    destruct (settles (outcome (id s))) eqn:Hset; cbn [negb].
    + rewrite IH, map_map by done. apply map_ext. intros x.
      unfold pending_id. cbn [existsb].
      rewrite bool_decide_eq_true_2 by done. cbn [andb].
      destruct (id_eqb (id x) (id s)) eqn:Hx.
      * apply bool_decide_eq_true in Hx. rewrite finish_id.
        unfold id_eqb at 2. rewrite bool_decide_eq_true_2 by done. cbn [orb].
        rewrite <- Hx.
        destruct (existsb _ (visited outcome rest)); [apply finish_twice|done].
      * unfold id_eqb at 2. unfold id_eqb in Hx.
        apply bool_decide_eq_false in Hx.
        rewrite bool_decide_eq_false_2 by congruence. done.
    + apply map_ext. intros x. unfold pending_id. cbn [existsb].
      rewrite bool_decide_eq_true_2 by done. cbn [andb]. rewrite orb_false_r.
      unfold id_eqb.
      destruct (decide (id x = id s)) as [Hx|Hx].
      * by rewrite !bool_decide_eq_true_2, Hx by done.
      * by rewrite !bool_decide_eq_false_2 by congruence.
  - rewrite IH by done. apply map_ext. intros x. unfold pending_id. cbn [existsb].
    by rewrite bool_decide_eq_false_2 by (intros Hn; by apply Hn).
Qed.

Lemma visited_all_settle outcome items :
  (forall x, settles (outcome x) = true) -> visited outcome items = items.
Proof.
  intros Hset. induction items as [|s rest IH]; [done|]. cbn [visited].
  by rewrite Hset, andb_false_r, IH.
Qed.

(** "Process all" gets to the not-yet-done items of the list it closed over
    in order, up to and including the first on which [processOne] stalls.
    Every item with the identifier of one of those ends ['done'] with its
    new blob, ['error'], or (the stalled one) ['processing'], according to
    its own outcome; every other item, those after the stalled one included,
    is left as it is; order and length are kept.  When no item stalls, a
    failure notwithstanding, it gets to all of them; when the first
    not-yet-done item stalls, nothing else is touched. *)
Theorem processAll_item_by_item (closure : list StickerItem)
  (outcome : string -> Outcome) (prev : list StickerItem) :
  processAll closure outcome prev
  = map (fun x => if pending_id (visited outcome closure) (id x)
                  then finish (outcome (id x)) x else x) prev /\
  ((forall x, settles (outcome x) = true) -> visited outcome closure = closure) /\
  (forall s rest, closure = s :: rest -> status s <> done ->
     outcome (id s) = Stalls ->
     processAll closure outcome prev = map_id (id s) (with_status processing) prev).
Proof.
  split; [apply processAll_from_map; by intros x|].
  split; [apply visited_all_settle|].
  intros s rest -> Hs Hstall. unfold processAll.
  rewrite processAll_from_map by (by intros x). cbn [visited].
  rewrite bool_decide_eq_true_2, Hstall by done. cbn [settles negb andb].
  unfold map_id. apply map_ext. intros x. unfold pending_id. cbn [existsb].
  rewrite bool_decide_eq_true_2 by done. cbn [andb]. rewrite orb_false_r.
  unfold id_eqb. destruct (decide (id x = id s)) as [Hx|Hx].
  - by rewrite !bool_decide_eq_true_2, Hx, Hstall by done.
  - by rewrite !bool_decide_eq_false_2 by congruence.
Qed.

Lemma pending_id_self (items : list StickerItem) (x : StickerItem) :
  In x items -> status x <> done -> pending_id items (id x) = true.
Proof.
  intros Hin Hst. unfold pending_id. apply existsb_exists. exists x.
  split; [done|]. unfold id_eqb. by rewrite !bool_decide_eq_true_2.
Qed.

(** When every matting succeeds, "process all" on the current list of a
    reachable collection leaves every item ['done'] with a blob. *)
Theorem processAll_all_done (stickers : list StickerItem)
  (outcome : string -> Outcome) :
  reachable stickers ->
  (forall x, exists blob url, outcome x = Succeeds blob url) ->
  Forall (fun s => status s = done /\ is_Some (processedBlob s))
         (processAll stickers outcome stickers).
Proof.
  intros Hr Hok. pose proof (reachable_done_has_blob _ Hr) as Hinv.
  unfold processAll. rewrite processAll_from_map by (by intros x).
  rewrite visited_all_settle by (intros x; by destruct (Hok x) as (blob & url & ->)).
  apply List.Forall_map, Forall_forall. intros s Hs.
  destruct (decide (status s = done)) as [Hd|Hnd].
  - destruct (pending_id stickers (id s)).
    + destruct (Hok (id s)) as (blob & url & ->). cbn; eauto.
    + split; [done|]. by apply (proj1 (Forall_forall _ _) Hinv s).
  - rewrite pending_id_self by (try done; by apply list_elem_of_In).
    destruct (Hok (id s)) as (blob & url & ->). cbn; eauto.
Qed.

Lemma two_uploads_reachable : reachable two_uploads.
Proof. apply rtc_once. constructor. Qed.

Lemma processAll_all_done_witness :
  Forall (fun s => status s = done /\ is_Some (processedBlob s))
         (processAll two_uploads (fun _ => Succeeds matted_blob "blob:m") two_uploads).
Proof.
  apply (processAll_all_done two_uploads (fun _ => Succeeds matted_blob "blob:m")).
  - exact two_uploads_reachable.
  - intros x. by exists matted_blob, "blob:m"%string.
Defined.


(** ** Roles, removal and the URL invariant *)

Lemma filter_flag_setRole_main target prev :
  List.filter (fun s => truthy (isMain s)) (setRole target main prev)
  = map (with_isMain (Some true)) (List.filter (fun s => id_eqb (id s) target) prev).
Proof.
  unfold setRole. induction prev as [|s prev IH]; [done|]. cbn.
  destruct (id_eqb (id s) target); cbn; by rewrite IH.
Qed.

Lemma filter_flag_setRole_tab target prev :
  List.filter (fun s => truthy (isTab s)) (setRole target tab prev)
  = map (with_isTab (Some true)) (List.filter (fun s => id_eqb (id s) target) prev).
Proof.
  unfold setRole. induction prev as [|s prev IH]; [done|]. cbn.
  destruct (id_eqb (id s) target); cbn; by rewrite IH.
Qed.

Lemma filter_id_NoDup target (prev : list StickerItem) :
  List.NoDup (map id prev) ->
  (length (List.filter (fun s => id_eqb (id s) target) prev) <= 1)%nat.
Proof.
  induction prev as [|s prev IH]; intros Hnd; [cbn; lia|].
  inversion Hnd as [|? ? Hnotin Hnd']; subst. cbn.
  destruct (id_eqb (id s) target) eqn:Hs; [|by apply IH].
  apply bool_decide_eq_true in Hs. cbn.
  assert (List.filter (fun s0 => id_eqb (id s0) target) prev = []) as ->; [|cbn; lia].
  destruct (List.filter _ prev) as [|y l] eqn:Hf; [done|].
  assert (In y (List.filter (fun s0 => id_eqb (id s0) target) prev)) as Hy
    by (rewrite Hf; by left).
  apply filter_In in Hy as [Hy Hid]. apply bool_decide_eq_true in Hid.
  exfalso. apply Hnotin. rewrite Hs, <- Hid. by apply in_map.
Qed.

(** After [setRole(id, role)] the items carrying the role's flag are exactly
    those with that identifier; when identifiers are distinct that is at
    most one item, and none if no item has the identifier. *)
Theorem setRole_exclusive (target : string) (prev : list StickerItem) :
  List.NoDup (map id prev) ->
  let mains := List.filter (fun s => truthy (isMain s)) (setRole target main prev) in
  let tabs := List.filter (fun s => truthy (isTab s)) (setRole target tab prev) in
  (length mains <= 1)%nat /\ (length tabs <= 1)%nat /\
  (forall s, In s mains -> id s = target) /\
  (forall s, In s tabs -> id s = target).
Proof.
  intros Hnd. cbv zeta.
  rewrite filter_flag_setRole_main, filter_flag_setRole_tab, !length_map.
  pose proof (filter_id_NoDup target prev Hnd) as Hlen.
  repeat split; try done;
    intros s (x & <- & Hx)%in_map_iff; apply filter_In in Hx as [_ Hx];
    by apply bool_decide_eq_true in Hx.
Qed.

Lemma two_uploads_NoDup : List.NoDup (map id two_uploads).
Proof. cbn. repeat constructor; cbn; intuition discriminate. Qed.

Lemma setRole_exclusive_witness :
  let mains := List.filter (fun s => truthy (isMain s)) (setRole "a" main two_uploads) in
  let tabs := List.filter (fun s => truthy (isTab s)) (setRole "a" tab two_uploads) in
  (length mains <= 1)%nat /\ (length tabs <= 1)%nat /\
  (forall s, In s mains -> id s = "a"%string) /\
  (forall s, In s tabs -> id s = "a"%string).
Proof.
  apply (setRole_exclusive "a" two_uploads). exact two_uploads_NoDup.
Defined.

Lemma find_setRole_main target prev :
  find (fun s => truthy (isMain s)) (setRole target main prev)
  = with_isMain (Some true) <$> find (fun s => id_eqb (id s) target) prev.
Proof.
  unfold setRole. induction prev as [|s prev IH]; [done|]. cbn.
  destruct (id_eqb (id s) target); cbn; [done|apply IH].
Qed.

Lemma doneStickers_of_setRole target role prev :
  doneStickers_of (setRole target role prev)
  = setRole target role (doneStickers_of prev).
Proof.
  unfold doneStickers_of, setRole. induction prev as [|s prev IH]; [done|].
  cbn. destruct role; cbn;
    destruct (bool_decide (status s = done) && _); cbn; by rewrite IH.
Qed.

(** The item export takes as main image after [setRole(id, 'main')] is the
    first item with that identifier, whatever its status; when no item has
    the identifier every main flag is cleared and export falls back to the
    first done item. *)
Theorem setRole_decides_main (target : string) (prev : list StickerItem) :
  mainItem_of (setRole target main prev)
  = match find (fun s => id_eqb (id s) target) prev with
    | Some s => Some (with_isMain (Some true) s)
    | None => with_isMain (Some false) <$> (doneStickers_of prev !! 0%nat)
    end.
Proof.
  unfold mainItem_of. rewrite find_setRole_main.
  destruct (find _ prev) as [s|] eqn:Hfind; [done|]. cbn.
  rewrite doneStickers_of_setRole.
  destruct (doneStickers_of prev) as [|d ds] eqn:Hd; [done|]. cbn.
  assert (In d prev) as Hin.
  { assert (In d (doneStickers_of prev)) as H' by (rewrite Hd; by left).
    by apply doneStickers_of_In in H' as []. }
  pose proof (find_none _ _ Hfind d Hin) as Hf. cbn in Hf. by rewrite Hf.
Qed.

Lemma removeItem_In target prev s :
  In s (removeItem target prev) <-> In s prev /\ id s <> target.
Proof.
  unfold removeItem. rewrite filter_In, negb_true_iff. unfold id_eqb.
  by rewrite bool_decide_eq_false.
Qed.

Lemma sublist_List_filter {A} (f : A -> bool) (l : list A) :
  sublist (List.filter f l) l.
Proof.
  induction l as [|x l IH]; [constructor|]. cbn.
  destruct (f x); by constructor.
Qed.

(** Removing an identifier removes every item with it and nothing else:
    the others stay, in their order, and removing again changes nothing. *)
Theorem removeItem_exact (target : string) (prev : list StickerItem) :
  (forall s, In s (removeItem target prev) <-> In s prev /\ id s <> target) /\
  sublist (removeItem target prev) prev /\
  removeItem target (removeItem target prev) = removeItem target prev.
Proof.
  split; [apply removeItem_In|]. split; [apply sublist_List_filter|].
  unfold removeItem. induction prev as [|s prev IH]; [done|]. cbn.
  destruct (negb (id_eqb (id s) target)) eqn:Hs; cbn; rewrite ?Hs; by rewrite IH.
Qed.

Lemma step_url_matches_blob prev next :
  step prev next -> Forall url_matches_blob prev -> Forall url_matches_blob next.
Proof.
  intros Hstep Hprev. destruct Hstep.
  - unfold handleFileUpload. apply Forall_app. split; [done|].
    apply List.Forall_map, Forall_true. intros [[? ?] ?]. split; [|done].
    cbn. split; intros []; done.
  - unfold handleGridUpload. apply Forall_app. split; [done|].
    apply Forall_imap_all. intros i [[newId url] blob].
    destruct (_ && _); (split; [by cbn; split; eauto|done]).
  - unfold processOne_start. destruct (find _ _) as [found|]; [|done].
    apply Forall_map_id; [|done]. intros s [Hu _]. split; [done|done].
  - apply Forall_map_id; [|done]. intros s _. split; [by cbn; split; eauto|done].
  - apply Forall_map_id; [|done]. intros s [Hu _]. split; [done|done].
  - unfold setRole. apply List.Forall_map.
    eapply Forall_impl; [done|]. by intros s Hs; destruct role.
  - by apply Forall_List_filter.
  - apply Forall_map_id; [|done]. intros s _. split; [by cbn; split; eauto|done].
Qed.

(** In every reachable collection an item has a URL for its processed image
    exactly when it has the processed blob, and a pending item has no blob. *)
Theorem reachable_url_matches_blob (stickers : list StickerItem) (s : StickerItem) :
  reachable stickers -> In s stickers ->
  (is_Some (processedUrl s) <-> is_Some (processedBlob s)) /\
  (status s = pending -> processedBlob s = None).
Proof.
  intros Hr Hin. revert stickers Hr s Hin. unfold reachable.
  apply (rtc_ind_r (fun st => forall s, In s st -> url_matches_blob s)).
  - by intros s [].
  - intros mid last _ Hstep IH s Hin.
    assert (Forall url_matches_blob mid) as Hmid
      by (apply Forall_forall; intros x Hx; apply IH; by apply list_elem_of_In).
    apply (proj1 (Forall_forall _ _) (step_url_matches_blob _ _ Hstep Hmid)).
    by apply list_elem_of_In.
Qed.

Lemma reachable_url_matches_blob_witness :
  let s := createStickerItem "a" "blob:a" (Some (mkFile "a.png")) None in
  (is_Some (processedUrl s) <-> is_Some (processedBlob s)) /\
  (status s = pending -> processedBlob s = None).
Proof.
  apply (reachable_url_matches_blob two_uploads).
  - exact two_uploads_reachable.
  - by left.
Defined.


(** ** Export: outcome, state and names *)

Section ExportOutcome.
Context {N : Type} `{Number N}.

Lemma run_app (st : AppState N) (l1 l2 : list (Effect N)) :
  run st (l1 ++ l2) = run (run st l1) l2.
Proof. unfold run. apply fold_left_app. Qed.

Lemma run_keeps_collection (effects : list (Effect N)) : forall st : AppState N,
  stickers (run st effects) = stickers st /\ config (run st effects) = config st.
Proof.
  induction effects as [|e effects IH]; intros st; [done|].
  change (run st (e :: effects)) with (run (apply_effect st e) effects).
  destruct (IH (apply_effect st e)) as [-> ->]. by destruct e.
Qed.

Lemma archives_app (l1 l2 : list (Effect N)) :
  archives (l1 ++ l2) = archives l1 ++ archives l2.
Proof. unfold archives. apply flat_map_app. Qed.

Lemma alerts_app (l1 l2 : list (Effect N)) :
  alerts (l1 ++ l2) = alerts l1 ++ alerts l2.
Proof. unfold alerts. apply flat_map_app. Qed.

Lemma loop_progress_silent exportCount indices :
  archives (loop_progress (N:=N) exportCount indices) = [] /\
  alerts (loop_progress (N:=N) exportCount indices) = [].
Proof. induction indices as [|i indices [IH1 IH2]]; [done|]. by cbn. Qed.

(** What the [try] block yields in the four cases of the two blobs. *)
Lemma export_body_cases stickers config :
  doneStickers_of stickers <> [] ->
  exists entries m t,
    mainItem_of stickers = Some m /\ tabItem_of stickers = Some t /\
    let exportCount := exportCount_of stickers config in
    let progress_so_far := loop_progress exportCount (seq 0 (Z.to_nat exportCount)) in
    export_body stickers config =
      match processedBlob m, processedBlob t with
      | None, _ => (progress_so_far, None)
      | Some mb, None =>
          (progress_so_far
             ++ [SetExportProgress (progress (exportCount + 1) exportCount)], None)
      | Some mb, Some tb =>
          (progress_so_far
             ++ [SetExportProgress (progress (exportCount + 1) exportCount);
                 SetExportProgress (num_of_Z 100);
                 SaveAs "line_sticker_pack"
                   (entries ++
                    [("main.png"%string,
                      resizeToLineSpec mb (num_of_Z (main_size config))
                        (num_of_Z (main_size config)) default_padding);
                     ("tab.png"%string,
                      resizeToLineSpec tb (num_of_Z 96) (num_of_Z 74) default_padding)])
                   (zip_filename exportCount)], Some tt)
      end.
Proof.
  intros Hne.
  pose proof (exportCount_of_bounds stickers config) as [Hec _].
  destruct (export_loop_ok (doneStickers_of stickers) (exportCount_of stickers config)
              (num_of_Z (fst (sticker_size config)))
              (num_of_Z (snd (sticker_size config)))
              (seq 0 (Z.to_nat (exportCount_of stickers config))) [])
    as (entries & Hloop & _).
  { apply doneStickers_of_indices. lia. }
  assert (exists m, mainItem_of stickers = Some m) as [m Hm].
  { unfold mainItem_of. destruct (find _ stickers); [eauto|].
    destruct (doneStickers_of stickers); [done|eauto]. }
  assert (exists t, tabItem_of stickers = Some t) as [t Ht].
  { unfold tabItem_of. destruct (find _ stickers); [eauto|].
    destruct (doneStickers_of stickers); [done|eauto]. }
  exists entries, m, t. split; [done|]. split; [done|]. cbv zeta.
  unfold export_body. rewrite Hloop, Hm, Ht. cbn.
  destruct (processedBlob m) as [mb|]; cbn; [|by rewrite app_nil_r].
  destruct (processedBlob t) as [tb|]; cbn; by rewrite <- ?app_assoc.
Qed.

(** An export that starts (some item is done) either saves exactly one
    archive and raises no alert, or saves nothing and raises the failure
    alert once; it succeeds exactly when the resolved main and tab items
    both carry a blob. *)
Theorem handleExport_all_or_nothing (stickers : list StickerItem)
  (config : StickerPackConfig) :
  doneStickers_of stickers <> [] ->
  let out := handleExport (N:=N) stickers config in
  length (archives out) = (if export_ready stickers then 1 else 0)%nat /\
  alerts out = (if export_ready stickers then [] else [alert_export_failed]).
Proof.
  intros Hne. cbv zeta.
  destruct (export_body_cases stickers config Hne) as (entries & m & t & Hm & Ht & Hbody).
  cbv zeta in Hbody.
  destruct (loop_progress_silent (exportCount_of stickers config)
              (seq 0 (Z.to_nat (exportCount_of stickers config)))) as [Har Hal].
  unfold handleExport, export_ready.
  destruct (doneStickers_of stickers) as [|d ds] eqn:Hd; [done|].
  cbn [length Nat.eqb]. rewrite Hbody, Hm, Ht.
  destruct (processedBlob m) as [mb|], (processedBlob t) as [tb|];
    unfold try_catch_finally;
    rewrite !archives_app, !alerts_app, ?Har, ?Hal; done.
Qed.

(** However an export that starts ends, the exporting flag is off and the
    progress value is back at 0 afterwards; collection and configuration are
    never changed. *)
Theorem handleExport_resets_state (st : AppState N) :
  doneStickers_of (stickers st) <> [] ->
  let st' := run st (handleExport (stickers st) (config st)) in
  isExporting st' = false /\ exportProgress st' = num_of_Z 0 /\
  stickers st' = stickers st /\ config st' = config st.
Proof.
  intros Hne. cbv zeta.
  destruct (run_keeps_collection (handleExport (stickers st) (config st)) st)
    as [Hs Hc].
  split; [|split; [|done]]; unfold handleExport;
    (destruct (doneStickers_of (stickers st)) as [|d ds] eqn:Hd; [done|]);
    cbn [length Nat.eqb]; unfold try_catch_finally;
    destruct (export_body (stickers st) (config st)) as [trace [[]|]];
    rewrite ?app_assoc, run_app; reflexivity.
Qed.

End ExportOutcome.


Lemma handleExport_all_or_nothing_witness :
  let out := handleExport (N:=float) flagged_unprocessed standard16 in
  length (archives out) = (if export_ready flagged_unprocessed then 1 else 0)%nat /\
  alerts out = (if export_ready flagged_unprocessed then [] else [alert_export_failed]).
Proof.
  apply (handleExport_all_or_nothing (N:=float) flagged_unprocessed standard16).
  discriminate.
Defined.

Lemma handleExport_resets_state_witness :
  let st' := run failing_export_state
               (handleExport (stickers failing_export_state)
                  (config failing_export_state)) in
  isExporting st' = false /\ exportProgress st' = num_of_Z 0 /\
  stickers st' = stickers failing_export_state /\
  config st' = config failing_export_state.
Proof.
  apply (handleExport_resets_state failing_export_state). discriminate.
Defined.

Lemma List_filter_all {A} (f : A -> bool) (l : list A) :
  Forall (fun x => f x = true) l -> List.filter f l = l.
Proof. induction 1 as [|x l Hx _ IH]; [done|]. cbn. by rewrite Hx, IH. Qed.

Lemma List_filter_none {A} (f : A -> bool) (l : list A) :
  Forall (fun x => f x = false) l -> List.filter f l = [].
Proof. induction 1 as [|x l Hx _ IH]; [done|]. cbn. by rewrite Hx. Qed.

Lemma handleGridUpload_eligible closure blobs :
  Forall (fun s => bool_decide (status s = done)
                   && match processedBlob s with Some _ => true | None => false end
                   = true)
         (handleGridUpload closure blobs []).
Proof.
  unfold handleGridUpload. cbn [app].
  apply Forall_lookup. intros i s. rewrite list_lookup_imap.
  destruct (blobs !! i) as [[[newId url] blob]|]; cbn [fmap option_fmap option_map]; [|done].
  intros [= <-].
  by destruct ((length closure =? 0)%nat && (i =? 0)%nat).
Qed.

(** Uploaded files do not become eligible for export until they are
    processed; the cells of a grid upload are eligible at once, all of them
    and in their order. *)
Theorem uploads_and_eligibility (files : list (string * string * File))
  (closure : list StickerItem) (blobs : list (string * string * Blob))
  (prev : list StickerItem) :
  doneStickers_of (handleFileUpload files prev) = doneStickers_of prev /\
  doneStickers_of (handleGridUpload closure blobs prev)
  = doneStickers_of prev ++ handleGridUpload closure blobs [].
Proof.
  unfold doneStickers_of, handleFileUpload, handleGridUpload.
  rewrite !List.filter_app. split.
  - rewrite (List_filter_none _ (map _ files)); [by rewrite app_nil_r|].
    apply List.Forall_map, Forall_true. by intros [[? ?] ?].
  - f_equal. apply List_filter_all, (handleGridUpload_eligible closure blobs).
Qed.

Lemma handleGridUpload_first first rest :
  exists item others,
    handleGridUpload [] (first :: rest) [] = item :: others /\
    length others = length rest /\
    isMain item = Some true /\ isTab item = Some true /\
    processedBlob item = Some (snd first).
Proof.
  destruct first as [[newId url] blob]. unfold handleGridUpload. cbn [app imap].
  eexists _, _. split; [reflexivity|]. rewrite length_imap. by cbn.
Qed.

(** A grid upload onto the empty collection can be exported straight away:
    one archive is saved, with [min(cells, count)] stickers followed by
    [main.png] and [tab.png], both made from the first cell. *)
Theorem grid_upload_then_export {N : Type} `{Number N}
  (first : string * string * Blob) (rest : list (string * string * Blob))
  (config : StickerPackConfig) :
  let stickers := handleGridUpload [] (first :: rest) [] in
  let exportCount := Z.min (Z.of_nat (S (length rest))) (count_value (count config)) in
  exists entries,
    length entries = Z.to_nat exportCount /\
    archives (handleExport (N:=N) stickers config)
    = [("line_sticker_pack"%string,
        entries ++
        [("main.png"%string,
          resizeToLineSpec (snd first) (num_of_Z (main_size config))
            (num_of_Z (main_size config)) default_padding);
         ("tab.png"%string,
          resizeToLineSpec (snd first) (num_of_Z 96) (num_of_Z 74) default_padding)],
        zip_filename exportCount)].
Proof.
  cbv zeta.
  destruct (handleGridUpload_first first rest)
    as (item & others & Heq & Hlen & Hmain & Htab & Hblob).
  assert (doneStickers_of (handleGridUpload [] (first :: rest) [])
          = handleGridUpload [] (first :: rest) []) as Hdone.
  { unfold doneStickers_of. apply List_filter_all, handleGridUpload_eligible. }
  assert (mainItem_of (handleGridUpload [] (first :: rest) []) = Some item) as Hm
    by (unfold mainItem_of; rewrite Heq; cbn; by rewrite Hmain).
  assert (tabItem_of (handleGridUpload [] (first :: rest) []) = Some item) as Ht
    by (unfold tabItem_of; rewrite Heq; cbn; by rewrite Htab).
  assert (exportCount_of (handleGridUpload [] (first :: rest) []) config
          = Z.min (Z.of_nat (S (length rest))) (count_value (count config))) as Hec.
  { unfold exportCount_of. rewrite Hdone, Heq. cbn [length]. by rewrite Hlen. }
  destruct (handleExport_pack (N:=N) (handleGridUpload [] (first :: rest) [])
              config item (snd first) item (snd first))
    as (entries & Hentries & Htrace); try done.
  { rewrite Hdone, Heq. discriminate. }
  exists entries. rewrite Hec in *. split.
  - apply Forall2_length in Hentries. by rewrite length_seq in Hentries.
  - rewrite Htrace, !archives_app.
    destruct (loop_progress_silent (N:=N)
                (Z.min (Z.of_nat (S (length rest))) (count_value (count config)))
                (seq 0 (Z.to_nat (Z.min (Z.of_nat (S (length rest)))
                                    (count_value (count config)))))) as [-> _].
    done.
Qed.




Lemma progress_table_checked : progress_table_ok = true.
Proof. vm_compute. reflexivity. Qed.

(** For every pack of 1 to 40 stickers and every step of its export, the
    progress value computed in double precision does not decrease at the
    next step and lies between 0 and 100; it is the exactly rounded
    percentage or, where the double product falls just short of a half
    (38 stickers, step 23: 57 for 57.5), one below it. *)
Theorem progress_monotone_in_doubles (exportCount k : Z) :
  1 <= exportCount <= 40 -> 1 <= k <= exportCount + 1 ->
  let p := progress (N:=float) k exportCount in
  PrimFloat.leb p (progress (N:=float) (k + 1) exportCount) = true /\
  PrimFloat.leb 0 p = true /\ PrimFloat.leb p 100 = true /\
  (p = float_of_Z (percent k exportCount) \/
   p = float_of_Z (percent k exportCount - 1)).
Proof.
  intros Hn Hk. pose proof progress_table_checked as Hok.
  unfold progress_table_ok in Hok.
  pose proof (proj1 (forallb_forall _ _) Hok exportCount) as Hrow.
  cbv beta in Hrow.
  assert (In exportCount (seqZ 1 40)) as Hin
    by (apply list_elem_of_In, elem_of_seqZ; lia).
  specialize (Hrow Hin).
  pose proof (proj1 (forallb_forall _ _) Hrow k) as Hcell. cbv beta zeta in Hcell.
  assert (In k (seqZ 1 (exportCount + 1))) as Hink
    by (apply list_elem_of_In, elem_of_seqZ; lia).
  specialize (Hcell Hink). cbv zeta.
  apply andb_prop in Hcell as [Hcell Heq]. apply andb_prop in Hcell as [Hcell H100].
  apply andb_prop in Hcell as [Hmono H0].
  repeat split; try assumption.
  apply orb_prop in Heq as [Heq|Heq]; apply FloatAxioms.Leibniz.eqb_spec in Heq;
    [by left|by right].
Qed.

Lemma progress_monotone_in_doubles_witness :
  let p := progress (N:=float) 23 38 in
  PrimFloat.leb p (progress (N:=float) (23 + 1) 38) = true /\
  PrimFloat.leb 0 p = true /\ PrimFloat.leb p 100 = true /\
  (p = float_of_Z (percent 23 38) \/ p = float_of_Z (percent 23 38 - 1)).
Proof. apply (progress_monotone_in_doubles 38 23); lia. Defined.
